(** * recordexpungPDX: the expungement orchestrator and the user-creation endpoint

    A shallow embedding of
    - [expungeservice/expunger/expunger.py] (class [Expunger]), and
    - [expungeservice/endpoints/users.py] (view [Users.post]),
    followed by the properties proved about them.

    Python objects live in a store indexed by object identity; a reference is
    a key of that store.  Exceptions are the [Raise] outcomes of a small error
    monad.  Python [set]s of strings are [gset string]: their iteration order
    is the one of [elements], and no statement below depends on which order
    that is. *)

From stdpp Require Import gmap strings list fin_maps.
From Stdlib Require Import ZArith Ascii.

Open Scope string_scope.
Open Scope list_scope.

(** ** Exceptions and the error monad *)

Inductive Exn : Type :=
  | AttributeError   (* attribute access on [None]: a dead weak reference *)
  | KeyError         (* [set.pop()] on an empty set, [dict[k]] on a missing key *)
  | TypeError        (* [len()] of a value that has no length *)
  | InvalidReference (* a strong reference with no object behind it: not a
                        state a Python heap can be in *).

Inductive result (A : Type) : Type :=
  | Ok (a : A)
  | Raise (e : Exn).
Arguments Ok {A} a.
Arguments Raise {A} e.

Global Instance result_ret : MRet result := fun _ a => Ok a.
Global Instance result_bind : MBind result := fun _ _ f m =>
  match m with
  | Ok a => f a
  | Raise e => Raise e
  end.

(** The line feed of the triple-quoted messages. *)
Definition LF : string := String (ascii_of_nat 10) EmptyString.

Module expunger.

(** *** Data model ([expungeservice.models], seen through the attributes that
    [expunger.py] reads) *)

(** Object identity. *)
Definition ref := nat.

(** Modelled from the spec: the enumeration [DispositionStatus] is not in
    src/; the spec lists Convicted, Dismissed and Unrecognized. *)
Inductive DispositionStatus : Type := CONVICTED | DISMISSED | UNRECOGNIZED.

Global Instance DispositionStatus_eq_dec : EqDecision DispositionStatus.
Proof. solve_decision. Defined.

Record Disposition : Type := mkDisposition {
  status : DispositionStatus;
  ruling : string
}.

(** Modelled from the spec: the verdict that [TimeAnalyzer] writes, "eligibility
    class (eligible-now, eligible-on-future-date, ineligible, indeterminate) and
    a human-readable rationale". *)
Inductive EligibilityClass : Type :=
  | EligibleNow
  | EligibleOn (date : Z)
  | Ineligible
  | Indeterminate.

Record TimeEligibility : Type := mkTimeEligibility {
  eligibility_class : EligibilityClass;
  rationale : string
}.

(** A charge.  [case] is the weak back-reference [charge.case()];
    [skip_analysis] is the value of [charge.skip_analysis()]. *)
Record Charge : Type := mkCharge {
  case : ref;
  skip_analysis : bool;
  disposition : option Disposition;
  eligibility : option TimeEligibility
}.

(** A case.  [closed] is the value of [case.closed()]. *)
Record Case : Type := mkCase {
  case_number : string;
  closed : bool;
  charges : list ref
}.

Record Record_ : Type := mkRecord {
  cases : list ref;
  errors : list string
}.

(** The store: the charge objects, the case objects and the record under
    analysis. *)
Record State : Type := mkState {
  charge_objs : gmap ref Charge;
  case_objs : gmap ref Case;
  record : Record_
}.

(** Modelled from the spec: [ChargeWithSummary], "an ordered grouping of one
    or more Charges plus any metadata the grouping computed"; the charges are
    references to the record's own objects. *)
Record ChargeWithSummary (Meta : Type) : Type := mkChargeWithSummary {
  group_charges : list ref;
  group_meta : Meta
}.
Arguments mkChargeWithSummary {Meta} _ _.
Arguments group_charges {Meta} _.
Arguments group_meta {Meta} _.

(** The instance state of an [Expunger]; [self.record] is the record of the
    store. *)
Record Expunger (Meta : Type) : Type := mkExpunger {
  charges_with_summary : list (ChargeWithSummary Meta)
}.
Arguments mkExpunger {Meta} _.
Arguments charges_with_summary {Meta} _.

(** *** Reading the store *)

Definition get_charge (st : State) (r : ref) : result Charge :=
  match charge_objs st !! r with
  | Some c => Ok c
  | None => Raise InvalidReference
  end.

Definition get_case (st : State) (r : ref) : result Case :=
  match case_objs st !! r with
  | Some c => Ok c
  | None => Raise InvalidReference
  end.

(** [charge.case()()]: calling the weak reference gives the case, or [None]
    when the case is gone, and the attribute access that follows raises. *)
Definition deref_case (st : State) (charge : Charge) : result Case :=
  match case_objs st !! case charge with
  | Some c => Ok c
  | None => Raise AttributeError
  end.

Fixpoint get_cases (st : State) (rs : list ref) : result (list Case) :=
  match rs with
  | [] => Ok []
  | r :: rs' =>
      c ← get_case st r;
      cs ← get_cases st rs';
      Ok (c :: cs)
  end.

(** Modelled from the spec: [Record.charges] is not in src/; it is "derived,
    not stored: the full flattened sequence of Charge across all Cases". *)
Definition Record_charges (st : State) : result (list ref) :=
  cs ← get_cases st (cases (record st));
  Ok (concat (map charges cs)).

(** [self.record.errors += new] *)
Definition extend_errors (new : list string) (st : State) : State :=
  mkState (charge_objs st) (case_objs st)
          (mkRecord (cases (record st)) (errors (record st) ++ new)).

(** *** Expunger *)

(** [[charge for charge in charges
       if not charge.skip_analysis() and charge.disposition]] *)
Fixpoint _without_skippable_charges (st : State) (charges : list ref)
  : result (list ref) :=
  match charges with
  | [] => Ok []
  | r :: rest =>
      charge ← get_charge st r;
      kept ← _without_skippable_charges st rest;
      Ok (if negb (skip_analysis charge) && bool_decide (is_Some (disposition charge))
          then r :: kept else kept)
  end.

(** [Expunger.__init__]; [summarize] is [ChargesSummarizer.summarize]. *)
Definition __init__ {Meta : Type}
    (summarize : State → list ref → list (ChargeWithSummary Meta))
    (st : State) : result (Expunger Meta) :=
  all_charges ← Record_charges st;
  analyzable_charges ← _without_skippable_charges st all_charges;
  Ok (mkExpunger (summarize st analyzable_charges)).

(** The body of the loop of [_filter_cases_with_errors], on the two sets. *)
Definition filter_step (st : State) (sets : gset string * gset string) (r : ref)
  : result (gset string * gset string) :=
  let '(cases_with_missing_disposition, cases_with_unrecognized_disposition) := sets in
  charge ← get_charge st r;
  if negb (skip_analysis charge) then
    owner ← deref_case st charge;
    let case_number := case_number owner in
    if bool_decide (disposition charge = None) && closed owner then
      Ok ({[ case_number ]} ∪ cases_with_missing_disposition,
          cases_with_unrecognized_disposition)
    else
      match disposition charge with
      | Some d =>
          if bool_decide (status d = UNRECOGNIZED) then
            Ok (cases_with_missing_disposition,
                {[ case_number +:+ ": " +:+ ruling d ]}
                  ∪ cases_with_unrecognized_disposition)
          else Ok sets
      | None => Ok sets
      end
  else Ok sets.

Fixpoint filter_loop (st : State) (sets : gset string * gset string)
    (charges : list ref) : result (gset string * gset string) :=
  match charges with
  | [] => Ok sets
  | r :: rest =>
      sets' ← filter_step st sets r;
      filter_loop st sets' rest
  end.

Definition _filter_cases_with_errors (st : State) (charges : list ref)
  : result (gset string * gset string) :=
  filter_loop st (∅, ∅) charges.

(** The two message templates. *)
Definition singular_message (error_case disposition_error_name : string) : string :=
  "Case " +:+ error_case +:+ " has a charge with " +:+ disposition_error_name
  +:+ " disposition." +:+ LF
  +:+ "This might be an error in the OECI database. Time analysis is ignoring this charge and may be inaccurate for other charges.".

Definition plural_message (cases_list_string disposition_error_name : string) : string :=
  "The following cases have charges with " +:+ disposition_error_name
  +:+ " disposition." +:+ LF
  +:+ "This might be an error in the OECI database. Time analysis is ignoring these charges and may be inaccurate for other charges."
  +:+ LF +:+ "Case numbers: " +:+ cases_list_string.

(** [error_cases.pop()]; the set is local to the caller and not read again. *)
Definition set_pop (s : gset string) : result string :=
  match elements s with
  | x :: _ => Ok x
  | [] => Raise KeyError
  end.

Definition _build_disposition_error_message (error_cases : gset string)
    (disposition_error_name : string) : result string :=
  if bool_decide (size error_cases = 1) then
    x ← set_pop error_cases;
    Ok (singular_message x disposition_error_name)
  else
    let cases_list_string := String.concat ", " (elements error_cases) in
    Ok (plural_message cases_list_string disposition_error_name).

Definition _build_disposition_errors (st : State) (charges : list ref)
  : result (list string) :=
  let record_errors : list string := [] in
  '(cases_with_missing_disposition, cases_with_unrecognized_disposition)
      ← _filter_cases_with_errors st charges;
  record_errors ←
    (if bool_decide (cases_with_missing_disposition ≠ ∅) then
       m ← _build_disposition_error_message cases_with_missing_disposition "a missing";
       Ok (record_errors ++ [m])
     else Ok record_errors);
  record_errors ←
    (if bool_decide (cases_with_unrecognized_disposition ≠ ∅) then
       m ← _build_disposition_error_message cases_with_unrecognized_disposition
             "an unrecognized";
       Ok (record_errors ++ [m])
     else Ok record_errors);
  Ok record_errors.

(** The open-case diagnostic of [run]. *)
Definition open_cases_message (case_numbers : string) : string :=
  "All charges are ineligible because there is one or more open case: "
  +:+ case_numbers
  +:+ ". Open cases with valid dispositions are still included in time analysis. Otherwise they are ignored, so time analysis may be inaccurate for other charges.".

(** Modelled from the spec: [TimeAnalyzer.evaluate] is not in src/.  Its
    contract: it "mutates the eligibility slot of every charge reachable
    through the grouping", its "output is entirely via mutation", it "must not
    mutate case or record state", and it does not throw.  What the verdict is
    stays open: [verdict] may read the whole store as it stands when the
    charge is reached. *)
Definition set_eligibility (v : TimeEligibility) (c : Charge) : Charge :=
  mkCharge (case c) (skip_analysis c) (disposition c) (Some v).

Definition evaluate_charge {Meta : Type}
    (verdict : State → ChargeWithSummary Meta → ref → TimeEligibility)
    (g : ChargeWithSummary Meta) (st : State) (r : ref) : State :=
  mkState (alter (set_eligibility (verdict st g r)) r (charge_objs st))
          (case_objs st) (record st).

Definition TimeAnalyzer_evaluate {Meta : Type}
    (verdict : State → ChargeWithSummary Meta → ref → TimeEligibility)
    (groups : list (ChargeWithSummary Meta)) (st : State) : State :=
  foldl (fun st g => foldl (evaluate_charge verdict g) st (group_charges g))
        st groups.

(** [Expunger.run]: the result and the store it leaves. *)
Definition run {Meta : Type}
    (verdict : State → ChargeWithSummary Meta → ref → TimeEligibility)
    (self : Expunger Meta) (st : State) : result (bool * State) :=
  all_cases ← get_cases st (cases (record st));
  let open_cases := filter (fun c => closed c = false) all_cases in
  let st :=
    if bool_decide (0 < length open_cases) then
      let case_numbers := String.concat "," (map case_number open_cases) in
      extend_errors [open_cases_message case_numbers] st
    else st in
  all_charges ← Record_charges st;
  disposition_errors ← _build_disposition_errors st all_charges;
  let st := extend_errors disposition_errors st in
  let st := TimeAnalyzer_evaluate verdict (charges_with_summary self) st in
  Ok (bool_decide (length open_cases = 0), st).

(** Construction followed at once by [run], as the callers do. *)
Definition expunge {Meta : Type}
    (summarize : State → list ref → list (ChargeWithSummary Meta))
    (verdict : State → ChargeWithSummary Meta → ref → TimeEligibility)
    (st : State) : result (bool * State) :=
  self ← __init__ summarize st;
  run verdict self st.

(** *** Vocabulary of the statements *)

(** The data-model invariants of a record: its cases exist, the charges each
    case owns exist, and each of them refers back to the case that owns it. *)
Definition charge_belongs_to (st : State) (r q : ref) : bool :=
  match charge_objs st !! q with
  | Some ch => bool_decide (case ch = r)
  | None => false
  end.

Definition case_well_formed (st : State) (r : ref) : bool :=
  match case_objs st !! r with
  | Some c => forallb (charge_belongs_to st r) (charges c)
  | None => false
  end.

Definition well_formed (st : State) : bool :=
  forallb (case_well_formed st) (cases (record st)).

(** The cases of the record, in order; its open cases; its charges. *)
Definition record_cases (st : State) : list Case :=
  omap (fun r => case_objs st !! r) (cases (record st)).

Definition open_cases (st : State) : list Case :=
  filter (fun c => closed c = false) (record_cases st).

Definition record_charges (st : State) : list ref :=
  concat (map charges (record_cases st)).

(** [q] is a charge of the record: the object [ch], owned by the case [c]. *)
Definition charge_of_record (st : State) (q : ref) (ch : Charge) (c : Case) : Prop :=
  ∃ r, r ∈ cases (record st) ∧ case_objs st !! r = Some c
       ∧ q ∈ charges c ∧ charge_objs st !! q = Some ch.

(** The spec's two conditions: "not skip-analysis, has no disposition, and
    its owning case is closed"; "not skip-analysis, has a disposition, and
    that disposition's status is Unrecognized", with the identifier
    "<case_number>: <ruling text>". *)
Definition contributes_missing (ch : Charge) (owner : Case) : bool :=
  negb (skip_analysis ch) && bool_decide (disposition ch = None) && closed owner.

Definition unrecognized_identifier (ch : Charge) (owner : Case) : option string :=
  match disposition ch with
  | Some d =>
      if negb (skip_analysis ch) && bool_decide (status d = UNRECOGNIZED)
      then Some (case_number owner +:+ ": " +:+ ruling d)
      else None
  | None => None
  end.

(** The two sets after one more charge, by the spec's conditions. *)
Definition after_charge (ch : Charge) (owner : Case)
    (sets : gset string * gset string) : gset string * gset string :=
  (if contributes_missing ch owner then {[ case_number owner ]} ∪ sets.1 else sets.1,
   match unrecognized_identifier ch owner with
   | Some i => {[ i ]} ∪ sets.2
   | None => sets.2
   end).

(** A diagnostic of the open-case kind. *)
Definition open_cases_prefix : string :=
  "All charges are ineligible because there is one or more open case: ".

Definition is_open_cases_diagnostic (e : string) : bool :=
  String.prefix open_cases_prefix e.

(** The entries that [run] appends for one of the two sets. *)
Definition diagnostics_of (error_cases : gset string) (disposition_error_name : string)
    (appended : list string) : Prop :=
  if bool_decide (error_cases = ∅) then appended = []
  else ∃ m, _build_disposition_error_message error_cases disposition_error_name = Ok m
            ∧ appended = [m].

(** A charge whose object and whose case can be read; what a list of charges
    puts in each of the two sets. *)
Definition readable (st : State) (q : ref) : Prop :=
  ∃ ch c, charge_objs st !! q = Some ch ∧ case_objs st !! case ch = Some c.

Definition missing_among (st : State) (qs : list ref) (n : string) : Prop :=
  ∃ q ch c, q ∈ qs ∧ charge_objs st !! q = Some ch
            ∧ case_objs st !! case ch = Some c
            ∧ contributes_missing ch c = true ∧ case_number c = n.

Definition unrecognized_among (st : State) (qs : list ref) (i : string) : Prop :=
  ∃ q ch c, q ∈ qs ∧ charge_objs st !! q = Some ch
            ∧ case_objs st !! case ch = Some c
            ∧ unrecognized_identifier ch c = Some i.

(** The entry that [run] appends when there are open cases. *)
Definition open_cases_diagnostics (st : State) : list string :=
  if bool_decide (0 < length (open_cases st)) then
    [open_cases_message (String.concat "," (map case_number (open_cases st)))]
  else [].

(** A charge with its eligibility slot blanked: what is left of it is all
    that [run] must leave alone. *)
Definition clear_eligibility (ch : Charge) : Charge :=
  mkCharge (case ch) (skip_analysis ch) (disposition ch) None.

(** What the time analysis leaves alone: the cases, the record, every
    field of a charge but its eligibility, and every charge it does not
    reach. *)
Definition untouched_by_analysis (reached : list ref) (st st' : State) : Prop :=
  case_objs st' = case_objs st
  ∧ record st' = record st
  ∧ clear_eligibility <$> charge_objs st' = clear_eligibility <$> charge_objs st
  ∧ ∀ q, q ∉ reached → charge_objs st' !! q = charge_objs st !! q.

(** An entry of a diagnostic names the case [n]: it is its case number, or an
    identifier "<case_number>: <ruling text>" made from it. *)
Definition names_case (n entry : string) : bool :=
  bool_decide (entry = n) || String.prefix (n +:+ ": ") entry.

(** "Each case number occurs at most once in the resulting diagnostic", for
    both sets of the record. *)
Definition each_case_listed_at_most_once (st : State) : Prop :=
  ∀ missing unrecognized c,
    _filter_cases_with_errors st (record_charges st) = Ok (missing, unrecognized) →
    c ∈ record_cases st →
    (length (filter (fun e => names_case (case_number c) e = true)
               (elements missing)) ≤ 1)%nat
    ∧ (length (filter (fun e => names_case (case_number c) e = true)
                 (elements unrecognized)) ≤ 1)%nat.

(** Modelled from the spec: [ChargesSummarizer.summarize] is not in src/.  Its
    contract: the groupings are such "that every analyzable charge appears in
    exactly one group", and grouping "only forms views/groupings over the same
    underlying objects". *)
Definition summarizer_contract {Meta : Type}
    (summarize : State → list ref → list (ChargeWithSummary Meta)) : Prop :=
  ∀ st cs, concat (map group_charges (summarize st cs)) ≡ₚ cs.

(** Number of places of [s] at which [needle] starts. *)
Fixpoint occurrences (needle s : string) : nat :=
  match s with
  | EmptyString => if String.prefix needle s then 1 else 0
  | String _ s' => (if String.prefix needle s then 1 else 0) + occurrences needle s'
  end.

(** *** Scenarios *)

(** One charge per group, no metadata; every verdict indeterminate. *)
Definition one_per_group (st : State) (cs : list ref) : list (ChargeWithSummary unit) :=
  map (fun r => mkChargeWithSummary [r] tt) cs.

Definition indeterminate (st : State) (g : ChargeWithSummary unit) (r : ref)
  : TimeEligibility :=
  mkTimeEligibility Indeterminate "no date information".

(** Two cases.  Case 0, "C3", closed: two charges with unrecognized rulings
    "Foo" and "Bar".  Case 1, "C4", open: a charge without disposition, a
    skip-analysis charge without disposition, a convicted charge. *)
Definition mixed_record : State :=
  mkState
    {[ 10 := mkCharge 0 false (Some (mkDisposition UNRECOGNIZED "Foo")) None;
       11 := mkCharge 0 false (Some (mkDisposition UNRECOGNIZED "Bar")) None;
       12 := mkCharge 1 false None None;
       13 := mkCharge 1 true None None;
       14 := mkCharge 1 false (Some (mkDisposition CONVICTED "Convicted")) None ]}
    {[ 0 := mkCase "C3" true [10; 11];
       1 := mkCase "C4" false [12; 13; 14] ]}
    (mkRecord [0; 1] ["loaded with warnings"]).

(** The expunger that [__init__] builds for it: charges 10, 11 and 14. *)
Definition mixed_expunger : Expunger unit :=
  mkExpunger (one_per_group mixed_record [10; 11; 14]).

(** The same record with every case closed. *)
Definition closed_record : State :=
  mkState (charge_objs mixed_record)
    {[ 0 := mkCase "C3" true [10; 11];
       1 := mkCase "C4" true [12; 13; 14] ]}
    (mkRecord [0; 1] []).

(** *** Further vocabulary and scenarios *)

(** The test of the comprehension of [_without_skippable_charges], read on
    the store. *)
Definition analyzable (st : State) (q : ref) : bool :=
  match charge_objs st !! q with
  | Some ch => negb (skip_analysis ch) && bool_decide (is_Some (disposition ch))
  | None => false
  end.

(** Nothing to report: no open case, and every charge of the record that is
    not skip-analysis has a disposition whose status is recognized. *)
Definition nothing_to_report (st : State) : Prop :=
  open_cases st = []
  ∧ ∀ q ch c, charge_of_record st q ch c → skip_analysis ch = false →
              ∃ d, disposition ch = Some d ∧ status d ≠ UNRECOGNIZED.

(** Two stores that differ at most in eligibility slots and in the error
    log. *)
Definition same_facts (st st' : State) : Prop :=
  case_objs st' = case_objs st
  ∧ cases (record st') = cases (record st)
  ∧ clear_eligibility <$> charge_objs st' = clear_eligibility <$> charge_objs st.

(** A charge that the loop of [_filter_cases_with_errors] gets past: it is in
    the store and it is skip-analysis or its case is alive. *)
Definition passes_filter (st : State) (q : ref) : Prop :=
  ∃ ch, charge_objs st !! q = Some ch
        ∧ (skip_analysis ch = true ∨ is_Some (case_objs st !! case ch)).

(** One closed case "C5" whose charges 11 and 12 refer to a case that is
    gone; 12 is skip-analysis. *)
Definition orphan_record : State :=
  mkState
    {[ 10 := mkCharge 0 false (Some (mkDisposition CONVICTED "Convicted")) None;
       11 := mkCharge 7 false (Some (mkDisposition DISMISSED "Dismissed")) None;
       12 := mkCharge 7 true None None ]}
    {[ 0 := mkCase "C5" true [12; 10; 11] ]}
    (mkRecord [0] []).

(** One closed case "C6": a convicted charge, a dismissed charge and a
    skip-analysis charge without disposition. *)
Definition settled_record : State :=
  mkState
    {[ 10 := mkCharge 0 false (Some (mkDisposition CONVICTED "Convicted")) None;
       11 := mkCharge 0 false (Some (mkDisposition DISMISSED "Dismissed")) None;
       12 := mkCharge 0 true None None ]}
    {[ 0 := mkCase "C6" true [10; 11; 12] ]}
    (mkRecord [0] ["loaded"]).

(** Three cases in this order: "C7" open with one convicted charge, "C8"
    closed, "C9" open. *)
Definition two_open_record : State :=
  mkState
    {[ 10 := mkCharge 0 false (Some (mkDisposition CONVICTED "Convicted")) None ]}
    {[ 0 := mkCase "C7" false [10];
       1 := mkCase "C8" true [];
       2 := mkCase "C9" false [] ]}
    (mkRecord [0; 1; 2] []).

End expunger.

(** ** The user-creation endpoint ([expungeservice/endpoints/users.py]) *)

Module users.

(** A value of the request's JSON body, as Python sees it after
    [request.get_json()].  A [str] is held as its UTF-8 text. *)
#[warnings="-register-all"] Inductive Json : Type :=
  | JNull
  | JBool (b : bool)
  | JNumber (n : Z)
  | JString (s : string)
  | JArray (l : list Json)
  | JObject (d : list (string * Json)).

(** A request: its JSON body ([None] when there is none, else the [dict] of
    its fields) and whatever the authentication layer reads. *)
Record Request : Type := mkRequest {
  get_json : option (gmap string Json);
  credentials : string
}.

(** How a view ends: [return jsonify(body), status], an [abort] with a status
    code, or an exception nobody catches. *)
Inductive Outcome : Type :=
  | Responded (status : nat) (body : gmap string Json)
  | Aborted (status : nat) (message : string)
  | Uncaught (e : Exn).

Definition status_of (o : Outcome) : nat :=
  match o with
  | Responded status _ => status
  | Aborted status _ => status
  | Uncaught _ => 500
  end.

(** The keyword arguments of [user.create]. *)
Record NewUser : Type := mkNewUser {
  email : Json;
  name : Json;
  group_name : Json;
  password_hash : string;
  admin : Json
}.

(** The calls whose absence or presence the properties speak of. *)
Inductive Call : Type :=
  | Call_generate_password_hash (password : Json)
  | Call_user_create (u : NewUser).

(** What is outside [users.py] and taken as given: the database with
    [user.create] ([None] stands for [UniqueViolation]), werkzeug's
    [generate_password_hash], the decision of the admin gate ([Some] is the
    answer it gives instead of running the view) and the text that
    [check_data_fields] puts in its answer. *)
Record Services : Type := mkServices {
  Database : Type;
  user_create : Database → NewUser → option (gmap string Json * Database);
  generate_password_hash : Json → result string;
  admin_gate : Request → option Outcome;
  missing_fields_message : list string → string
}.

Record World (S : Services) : Type := mkWorld {
  database : Database S;
  calls : list Call
}.
Arguments mkWorld {S} _ _.
Arguments database {S} _.
Arguments calls {S} _.

(** The monad of a view: the world is threaded through and an [Outcome] ends
    the view at once. *)
Definition View (S : Services) (A : Type) : Type :=
  World S → (A + Outcome) * World S.

Definition ret {S A} (a : A) : View S A := fun w => (inl a, w).

Definition bind {S A B} (m : View S A) (k : A → View S B) : View S B :=
  fun w =>
    match m w with
    | (inl a, w') => k a w'
    | (inr o, w') => (inr o, w')
    end.

Notation "x ←ᵥ m ; k" := (bind m (fun x => k))
  (at level 20, m at level 100, k at level 200, only parsing, right associativity).

Definition raise {S A} (e : Exn) : View S A := fun w => (inr (Uncaught e), w).

Definition lift {S A} (r : result A) : View S A :=
  match r with
  | Ok a => ret a
  | Raise e => raise e
  end.

(** Modelled from the spec: [expungeservice.request.error] is not in src/.
    The docstring of [Users.post] gives its effect ("Otherwise return 422"),
    and the view goes on to use [data] after [error(400, ...)] guarded
    [data is None]: the call does not return, the request ends with the
    given status. *)
Definition error {S A} (code : nat) (message : string) : View S A :=
  fun w => (inr (Aborted code message), w).

(** Modelled from the spec: [expungeservice.request.check_data_fields] is not
    in src/.  The docstring of [Users.post]: "If required fields are missing
    in the request, return 400". *)
Definition check_data_fields {S} (data : gmap string Json)
    (required_fields : list string) : View S unit :=
  if forallb (fun field => bool_decide (is_Some (data !! field))) required_fields
  then ret tt
  else error 400 (missing_fields_message S required_fields).

(** [data[key]] *)
Definition getitem {S} (data : gmap string Json) (key : string) : View S Json :=
  match data !! key with
  | Some v => ret v
  | None => raise KeyError
  end.

(** [len] of a [str]: the number of its code points, that is of the bytes of
    its UTF-8 text that do not continue a code point (the bytes 10xxxxxx). *)
Definition continuation_byte (a : ascii) : bool :=
  match a with
  | Ascii _ _ _ _ _ _ b6 b7 => b7 && negb b6
  end.

Fixpoint str_len (s : string) : nat :=
  match s with
  | EmptyString => 0
  | String a s' => (if continuation_byte a then 0 else 1) + str_len s'
  end.

(** [len(v)] *)
Definition len (v : Json) : result nat :=
  match v with
  | JString s => Ok (str_len s)
  | JArray l => Ok (length l)
  | JObject d => Ok (length d)
  | _ => Raise TypeError
  end.

Definition call_generate_password_hash {S} (password : Json) : View S string :=
  fun w =>
    let w' := mkWorld (database w) (calls w ++ [Call_generate_password_hash password]) in
    lift (generate_password_hash S password) w'.

(** [user.create(g.database, ...)] inside [try ... except UniqueViolation]. *)
Definition call_user_create {S} (u : NewUser) : View S (gmap string Json) :=
  fun w =>
    let log := calls w ++ [Call_user_create u] in
    match user_create S (database w) u with
    | Some (row, db') => (inl row, mkWorld db' log)
    | None =>
        error 422 "User with that email address already exists"
              (mkWorld (database w) log)
    end.

(** The body of [Users.post]. *)
Definition post_body {S} (req : Request) : View S Outcome :=
  data ←ᵥ match get_json req with
          | None => error 400 "No json data in request body"
          | Some data => ret data
          end;
  _ ←ᵥ check_data_fields data ["email"; "name"; "group_name"; "password"; "admin"];
  password ←ᵥ getitem data "password";
  n ←ᵥ lift (len password);
  _ ←ᵥ (if bool_decide (n < 8)
        then error 422 "New password is less than 8 characters long!"
        else ret tt);
  password_hash ←ᵥ call_generate_password_hash password;
  email ←ᵥ getitem data "email";
  name ←ᵥ getitem data "name";
  group_name ←ᵥ getitem data "group_name";
  admin ←ᵥ getitem data "admin";
  create_user_result ←ᵥ
    call_user_create (mkNewUser email name group_name password_hash admin);
  r_email ←ᵥ getitem create_user_result "email";
  r_admin ←ᵥ getitem create_user_result "admin";
  r_timestamp ←ᵥ getitem create_user_result "date_created";
  let response_data : gmap string Json :=
    <["email" := r_email]> (<["admin" := r_admin]> (<["timestamp" := r_timestamp]> ∅)) in
  ret (Responded 201 response_data).

(** [@admin_auth_required]: the gate answers in place of the view, or lets
    the view run. *)
Definition admin_auth_required {S} (view : Request → View S Outcome)
    (req : Request) : View S Outcome :=
  match admin_gate S req with
  | Some rejection => fun w => (inr rejection, w)
  | None => view req
  end.

(** [Users.post] as the application calls it: the outcome and the world it
    leaves. *)
Definition post {S} (req : Request) (w : World S) : Outcome * World S :=
  match admin_auth_required post_body req w with
  | (inl o, w') => (o, w')
  | (inr o, w') => (o, w')
  end.

(** *** Vocabulary of the statements and scenarios *)

(** The fields that [post] asks [check_data_fields] for. *)
Definition required_fields : list string :=
  ["email"; "name"; "group_name"; "password"; "admin"].

(** "Every request whose 'password' field is a string of fewer than 8
    characters is answered with status 422." *)
Definition short_password_always_422 (S : Services) : Prop :=
  ∀ (req : Request) (w : World S) (data : gmap string Json) (s : string),
    get_json req = Some data →
    data !! "password" = Some (JString s) →
    (str_len s < 8)%nat →
    status_of (post req w).1 = 422.

(** Services for the scenarios: the database is the list of the users
    created so far, the gate lets the token "admin-token" through. *)
Definition demo_services : Services :=
  mkServices
    (list NewUser)
    (fun db u =>
       Some (<["email" := email u]>
               (<["admin" := admin u]> (<["date_created" := JNumber 0]> ∅)),
             db ++ [u]))
    (fun password =>
       match password with
       | JString s => Ok ("hashed:" +:+ s)
       | _ => Raise TypeError
       end)
    (fun req =>
       if bool_decide (credentials req = "admin-token") then None
       else Some (Aborted 401 "not an admin"))
    (fun fields => "missing one or more required fields: " +:+ String.concat ", " fields).

Definition empty_world : World demo_services := mkWorld (S := demo_services) [] [].

(** An admin's request with a five-character password and nothing else. *)
Definition only_password : Request :=
  mkRequest (Some {[ "password" := JString "short" ]}) "admin-token".

(** An admin's request with all five fields and a five-character password. *)
Definition all_fields_short_password : Request :=
  mkRequest
    (Some (<["email" := JString "a@example.org"]>
             (<["name" := JString "A"]>
                (<["group_name" := JString "G"]>
                   (<["password" := JString "short"]>
                      (<["admin" := JBool false]> ∅))))))
    "admin-token".

(** *** [Users.get] *)

(** The dictionary that the loop of [get] appends for one row. *)
Definition get_entry {S} (user_entry : gmap string Json) : View S Json :=
  user_id ←ᵥ getitem user_entry "user_id";
  email ←ᵥ getitem user_entry "email";
  name ←ᵥ getitem user_entry "name";
  group_name ←ᵥ getitem user_entry "group_name";
  admin ←ᵥ getitem user_entry "admin";
  timestamp ←ᵥ getitem user_entry "date_created";
  ret (JObject [("user_id", user_id); ("email", email); ("name", name);
                ("group_name", group_name); ("admin", admin);
                ("timestamp", timestamp)]).

(** [for user_entry in user_db_data: response_data['users'].append(...)] *)
Fixpoint get_loop {S} (user_db_data : list (gmap string Json)) (users : list Json)
  : View S (list Json) :=
  match user_db_data with
  | [] => ret users
  | user_entry :: rest =>
      entry ←ᵥ get_entry user_entry;
      get_loop rest (users ++ [entry])
  end.

(** The body of [Users.get]; [fetchall] is [user.fetchall], which is outside
    [users.py]. *)
Definition get_body {S} (fetchall : Database S → list (gmap string Json))
    (req : Request) : View S Outcome :=
  fun w =>
    let user_db_data := fetchall (database w) in
    (users ←ᵥ get_loop user_db_data [];
     ret (Responded 201 {[ "users" := JArray users ]})) w.

(** [Users.get] as the application calls it. *)
Definition get {S} (fetchall : Database S → list (gmap string Json))
    (req : Request) (w : World S) : Outcome * World S :=
  match admin_auth_required (get_body fetchall) req w with
  | (inl o, w') => (o, w')
  | (inr o, w') => (o, w')
  end.

(** *** Further vocabulary and scenarios *)

(** What [get] shows of a row: six columns, [date_created] under the name
    "timestamp"; nothing when one of them is missing. *)
Definition public_entry (row : gmap string Json) : option Json :=
  user_id ← row !! "user_id";
  email ← row !! "email";
  name ← row !! "name";
  group_name ← row !! "group_name";
  admin ← row !! "admin";
  timestamp ← row !! "date_created";
  Some (JObject [("user_id", user_id); ("email", email); ("name", name);
                 ("group_name", group_name); ("admin", admin);
                 ("timestamp", timestamp)]).

(** The columns that [get] reads. *)
Definition columns_read : list string :=
  ["user_id"; "email"; "name"; "group_name"; "admin"; "date_created"].

(** The two calls that a request which reaches [user.create] has made. *)
Definition calls_of_creation (password : Json) (u : NewUser) : list Call :=
  [Call_generate_password_hash password; Call_user_create u].

(** The rows of the demo database, with the stored hash as a seventh
    column. *)
Definition demo_fetchall (db : list NewUser) : list (gmap string Json) :=
  map (fun u =>
         <["user_id" := JNumber 1]>
           (<["email" := email u]>
              (<["name" := name u]>
                 (<["group_name" := group_name u]>
                    (<["admin" := admin u]>
                       (<["date_created" := JNumber 0]>
                          (<["password_hash" := JString (password_hash u)]> ∅)))))))
      db.

Definition one_user_world : World demo_services :=
  mkWorld (S := demo_services)
    [mkNewUser (JString "a@example.org") (JString "A") (JString "G")
       "hashed:long enough" (JBool true)] [].

(** The demo services with a database that already has every email. *)
Definition duplicate_services : Services :=
  mkServices (list NewUser) (fun _ _ => None)
    (generate_password_hash demo_services) (admin_gate demo_services)
    (missing_fields_message demo_services).

(** The demo services with a [user.create] whose row has no [date_created]. *)
Definition incomplete_row_services : Services :=
  mkServices (list NewUser)
    (fun db u => Some (<["email" := email u]> (<["admin" := admin u]> ∅), db ++ [u]))
    (generate_password_hash demo_services) (admin_gate demo_services)
    (missing_fields_message demo_services).

(** An admin's request with all five fields and the password [password]. *)
Definition data_with_password (password : Json) : gmap string Json :=
  <["email" := JString "a@example.org"]>
    (<["name" := JString "A"]>
       (<["group_name" := JString "G"]>
          (<["password" := password]>
             (<["admin" := JBool false]> ∅)))).

Definition request_with_password (password : Json) : Request :=
  mkRequest (Some (data_with_password password)) "admin-token".

(** The user that such a request creates with the password "long enough". *)
Definition created_user : NewUser :=
  mkNewUser (JString "a@example.org") (JString "A") (JString "G")
    "hashed:long enough" (JBool false).

(** The demo rows without the column of the stored hash. *)
Definition demo_fetchall_without_hash (db : list NewUser) : list (gmap string Json) :=
  map (delete "password_hash") (demo_fetchall db).

End users.

(** * Properties of the expunger *)

Section expunger_store.
Import expunger.

(** [extend_errors] touches nothing that the readers of the store look at. *)
Lemma get_cases_extend_errors new st rs :
  get_cases (extend_errors new st) rs = get_cases st rs.
Proof. induction rs as [|r rs IH]; simpl; [done|]. by rewrite IH. Qed.

Lemma Record_charges_extend_errors new st :
  Record_charges (extend_errors new st) = Record_charges st.
Proof. unfold Record_charges; simpl. by rewrite get_cases_extend_errors. Qed.

Lemma filter_loop_extend_errors new st qs sets :
  filter_loop (extend_errors new st) sets qs = filter_loop st sets qs.
Proof.
  revert sets; induction qs as [|q qs IH]; intros sets; simpl; [done|].
  change (filter_step (extend_errors new st) sets q) with (filter_step st sets q).
  destruct (filter_step st sets q); simpl; [apply IH|done].
Qed.

Lemma _build_disposition_errors_extend_errors new st qs :
  _build_disposition_errors (extend_errors new st) qs = _build_disposition_errors st qs.
Proof.
  unfold _build_disposition_errors, _filter_cases_with_errors.
  by rewrite filter_loop_extend_errors.
Qed.

(** Reading the cases of a well-formed record. *)
Lemma get_cases_Ok st rs :
  Forall (fun r => is_Some (case_objs st !! r)) rs →
  get_cases st rs = Ok (omap (fun r => case_objs st !! r) rs).
Proof.
  induction 1 as [|r rs [c Hc] _ IH]; simpl; [done|].
  unfold get_case. rewrite Hc, IH. done.
Qed.

Lemma well_formed_case st r :
  well_formed st = true → r ∈ cases (record st) →
  ∃ c, case_objs st !! r = Some c
       ∧ forallb (charge_belongs_to st r) (charges c) = true.
Proof.
  unfold well_formed. rewrite forallb_forall. intros Hwf Hr.
  apply list_elem_of_In, Hwf in Hr. unfold case_well_formed in Hr.
  destruct (case_objs st !! r) as [c|]; [eauto|done].
Qed.

Lemma well_formed_cases st :
  well_formed st = true →
  Forall (fun r => is_Some (case_objs st !! r)) (cases (record st)).
Proof.
  intros Hwf. apply Forall_forall. intros r Hr.
  destruct (well_formed_case st r Hwf Hr) as (c & -> & _). eauto.
Qed.

Lemma well_formed_charge st r c q :
  well_formed st = true → r ∈ cases (record st) →
  case_objs st !! r = Some c → q ∈ charges c →
  ∃ ch, charge_objs st !! q = Some ch ∧ case ch = r.
Proof.
  intros Hwf Hr Hc Hq.
  destruct (well_formed_case st r Hwf Hr) as (c' & Hc' & Hall).
  rewrite Hc in Hc'. injection Hc' as <-.
  rewrite forallb_forall in Hall. apply list_elem_of_In, Hall in Hq.
  unfold charge_belongs_to in Hq.
  destruct (charge_objs st !! q) as [ch|]; [|done].
  apply bool_decide_eq_true in Hq. eauto.
Qed.

Lemma get_cases_well_formed st :
  well_formed st = true →
  get_cases st (cases (record st)) = Ok (record_cases st).
Proof. intros Hwf. by apply get_cases_Ok, well_formed_cases. Qed.

Lemma Record_charges_well_formed st :
  well_formed st = true → Record_charges st = Ok (record_charges st).
Proof.
  intros Hwf. unfold Record_charges. by rewrite get_cases_well_formed.
Qed.

Lemma elem_of_record_cases st c :
  c ∈ record_cases st ↔ ∃ r, r ∈ cases (record st) ∧ case_objs st !! r = Some c.
Proof. unfold record_cases. apply list_elem_of_omap. Qed.

Lemma elem_of_concat_map {A B : Type} (f : A → list B) (l : list A) (y : B) :
  y ∈ concat (map f l) ↔ ∃ x, x ∈ l ∧ y ∈ f x.
Proof.
  rewrite list_elem_of_In, in_concat. split.
  - intros (ys & Hys & Hy). apply in_map_iff in Hys as (x & <- & Hx).
    exists x. split; by apply list_elem_of_In.
  - intros (x & Hx & Hy). exists (f x). split.
    + apply in_map_iff. exists x. split; [done|]. by apply list_elem_of_In.
    + by apply list_elem_of_In.
Qed.

(** The charges of the record are the charges its cases own. *)
Lemma elem_of_record_charges st q :
  well_formed st = true →
  q ∈ record_charges st ↔ ∃ ch c, charge_of_record st q ch c.
Proof.
  intros Hwf. unfold record_charges, charge_of_record.
  rewrite elem_of_concat_map. split.
  - intros (c & Hc & Hq).
    apply elem_of_record_cases in Hc as (r & Hr & Hc).
    destruct (well_formed_charge st r c q Hwf Hr Hc Hq) as (ch & Hch & _).
    eauto 10.
  - intros (ch & c & r & Hr & Hc & Hq & Hch).
    exists c. split; [|done]. apply elem_of_record_cases. eauto.
Qed.

(** In a well-formed record the back-reference of a charge leads to the
    case that owns it. *)
Lemma charge_of_record_owner st q ch c :
  well_formed st = true → charge_of_record st q ch c →
  case_objs st !! case ch = Some c.
Proof.
  intros Hwf (r & Hr & Hc & Hq & Hch).
  destruct (well_formed_charge st r c q Hwf Hr Hc Hq) as (ch' & Hch' & Hback).
  rewrite Hch in Hch'. injection Hch' as <-. by rewrite Hback.
Qed.

End expunger_store.

Section expunger_diagnostics.
Import expunger.

(** The loop body does what the spec's two conditions say. *)
Lemma filter_step_spec st sets q ch c :
  charge_objs st !! q = Some ch → case_objs st !! case ch = Some c →
  filter_step st sets q = Ok (after_charge ch c sets).
Proof.
  intros Hch Hc. destruct sets as [m u].
  unfold filter_step, get_charge, deref_case, after_charge,
    contributes_missing, unrecognized_identifier.
  rewrite Hch; simpl. destruct (skip_analysis ch); simpl.
  - by destruct (disposition ch).
  - rewrite Hc; simpl. destruct (disposition ch) as [d|]; simpl.
    + by destruct (bool_decide (status d = UNRECOGNIZED)).
    + by destruct (closed c).
Qed.

Lemma filter_loop_spec st qs :
  Forall (readable st) qs →
  ∀ sets, ∃ m u,
    filter_loop st sets qs = Ok (m, u)
    ∧ (∀ n, n ∈ m ↔ n ∈ sets.1 ∨ missing_among st qs n)
    ∧ (∀ i, i ∈ u ↔ i ∈ sets.2 ∨ unrecognized_among st qs i).
Proof.
  induction 1 as [|q qs (ch & c & Hch & Hc) _ IH]; intros sets.
  - destruct sets as [m u]. exists m, u. simpl. split; [done|].
    split; intros x; (split; [by left|]);
      (intros [?|(? & ? & ? & []%elem_of_nil & _)]; done).
  - simpl. rewrite (filter_step_spec st sets q ch c Hch Hc). simpl.
    destruct (IH (after_charge ch c sets)) as (m & u & -> & Hm & Hu).
    exists m, u. split; [done|]. split.
    + intros n. rewrite Hm. unfold after_charge; simpl. split.
      * intros [Hn|(q' & ch' & c' & Hq' & ?)].
        -- destruct (contributes_missing ch c) eqn:Hcontrib; [|by left].
           apply elem_of_union in Hn as [->%elem_of_singleton|Hn]; [|by left].
           right. exists q, ch, c. split; [left|done].
        -- right. exists q', ch', c'. split; [by right|done].
      * intros [Hn|(q' & ch' & c' & Hq' & Hch' & Hc' & Hcontrib & Hnum)].
        -- left. destruct (contributes_missing ch c); [|done].
           apply elem_of_union. by right.
        -- apply elem_of_cons in Hq' as [->|Hq'].
           ++ left. rewrite Hch in Hch'. injection Hch' as <-.
              rewrite Hc in Hc'. injection Hc' as <-.
              rewrite Hcontrib, <- Hnum. apply elem_of_union. left.
              by apply elem_of_singleton.
           ++ right. exists q', ch', c'. done.
    + intros i. rewrite Hu. unfold after_charge; simpl. split.
      * intros [Hi|(q' & ch' & c' & Hq' & ?)].
        -- destruct (unrecognized_identifier ch c) as [j|] eqn:Hid; [|by left].
           apply elem_of_union in Hi as [->%elem_of_singleton|Hi]; [|by left].
           right. exists q, ch, c. split; [left|done].
        -- right. exists q', ch', c'. split; [by right|done].
      * intros [Hi|(q' & ch' & c' & Hq' & Hch' & Hc' & Hid)].
        -- left. destruct (unrecognized_identifier ch c); [|done].
           apply elem_of_union. by right.
        -- apply elem_of_cons in Hq' as [->|Hq'].
           ++ left. rewrite Hch in Hch'. injection Hch' as <-.
              rewrite Hc in Hc'. injection Hc' as <-.
              rewrite Hid. apply elem_of_union. left.
              by apply elem_of_singleton.
           ++ right. exists q', ch', c'. done.
Qed.

(** The two sets of a well-formed record. *)
Lemma filter_record_spec st :
  well_formed st = true →
  ∃ m u,
    _filter_cases_with_errors st (record_charges st) = Ok (m, u)
    ∧ (∀ n, n ∈ m ↔ ∃ q ch c, charge_of_record st q ch c
                               ∧ contributes_missing ch c = true
                               ∧ case_number c = n)
    ∧ (∀ i, i ∈ u ↔ ∃ q ch c, charge_of_record st q ch c
                               ∧ unrecognized_identifier ch c = Some i).
Proof.
  intros Hwf.
  assert (Hread : Forall (readable st) (record_charges st)).
  { apply Forall_forall. intros q Hq.
    apply (elem_of_record_charges st q Hwf) in Hq as (ch & c & Hq).
    exists ch, c. split; [by destruct Hq as (? & ? & ? & ? & ?)|].
    by apply (charge_of_record_owner st q). }
  destruct (filter_loop_spec st _ Hread (∅, ∅)) as (m & u & Hrun & Hm & Hu).
  exists m, u. split; [done|].
  assert (Hown : ∀ q ch c,
    q ∈ record_charges st → charge_objs st !! q = Some ch →
    case_objs st !! case ch = Some c → charge_of_record st q ch c).
  { intros q ch c Hq Hch Hc.
    apply (elem_of_record_charges st q Hwf) in Hq as (ch' & c' & Hq).
    assert (ch' = ch) as ->.
    { destruct Hq as (? & ? & ? & ? & Hch'). congruence. }
    pose proof (charge_of_record_owner st q ch c' Hwf Hq). congruence. }
  split.
  - intros n. rewrite Hm. simpl. split.
    + intros [[]%not_elem_of_empty|(q & ch & c & Hq & Hch & Hc & ? & ?)].
      exists q, ch, c. eauto.
    + intros (q & ch & c & Hq & ? & ?). right. exists q, ch, c.
      split; [apply (elem_of_record_charges st q Hwf); eauto|].
      split; [by destruct Hq as (? & ? & ? & ? & ?)|].
      split; [by apply (charge_of_record_owner st q)|done].
  - intros i. rewrite Hu. simpl. split.
    + intros [[]%not_elem_of_empty|(q & ch & c & Hq & Hch & Hc & ?)].
      exists q, ch, c. eauto.
    + intros (q & ch & c & Hq & ?). right. exists q, ch, c.
      split; [apply (elem_of_record_charges st q Hwf); eauto|].
      split; [by destruct Hq as (? & ? & ? & ? & ?)|].
      split; [by apply (charge_of_record_owner st q)|done].
Qed.

End expunger_diagnostics.

Section expunger_messages.
Import expunger.

Lemma message_singleton x name :
  _build_disposition_error_message {[ x ]} name = Ok (singular_message x name).
Proof.
  unfold _build_disposition_error_message, set_pop.
  rewrite size_singleton, elements_singleton. done.
Qed.

Lemma message_plural s name :
  size s ≠ 1 →
  _build_disposition_error_message s name
  = Ok (plural_message (String.concat ", " (elements s)) name).
Proof.
  intros Hsize. unfold _build_disposition_error_message.
  by rewrite bool_decide_eq_false_2.
Qed.

(** The message builder never fails: [pop] is only reached on one element. *)
Lemma message_total s name :
  ∃ m, _build_disposition_error_message s name = Ok m.
Proof.
  destruct (decide (size s = 1)) as [Hone|Hmany].
  - apply size_1_elem_of in Hone as (x & Hx). apply leibniz_equiv in Hx.
    subst s. eexists. apply message_singleton.
  - eexists. by apply message_plural.
Qed.

Lemma diagnostics_of_total s name :
  ∃ appended, diagnostics_of s name appended ∧ (length appended ≤ 1)%nat.
Proof.
  unfold diagnostics_of. destruct (bool_decide (s = ∅)).
  - exists []. simpl. split; [done|lia].
  - destruct (message_total s name) as (m & Hm). exists [m]. simpl. eauto.
Qed.

Lemma _build_disposition_errors_spec st qs m u :
  _filter_cases_with_errors st qs = Ok (m, u) →
  ∃ e1 e2, _build_disposition_errors st qs = Ok (e1 ++ e2)
           ∧ diagnostics_of m "a missing" e1
           ∧ diagnostics_of u "an unrecognized" e2.
Proof.
  intros Hsets. unfold _build_disposition_errors. rewrite Hsets. simpl.
  unfold diagnostics_of.
  destruct (decide (m = ∅)) as [Hm|Hm], (decide (u = ∅)) as [Hu|Hu].
  - rewrite !bool_decide_eq_false_2 by (by intros []).
    rewrite !bool_decide_eq_true_2 by done.
    exists [], []. done.
  - rewrite (bool_decide_eq_false_2 (m ≠ ∅)) by (by intros []).
    rewrite (bool_decide_eq_true_2 (u ≠ ∅)), (bool_decide_eq_true_2 (m = ∅)),
      (bool_decide_eq_false_2 (u = ∅)) by done.
    destruct (message_total u "an unrecognized") as (mu & Hmu).
    rewrite Hmu. simpl. exists [], [mu]. split_and!; eauto.
  - rewrite (bool_decide_eq_true_2 (m ≠ ∅)), (bool_decide_eq_false_2 (m = ∅)),
      (bool_decide_eq_true_2 (u = ∅)) by done.
    rewrite (bool_decide_eq_false_2 (u ≠ ∅)) by (by intros []).
    destruct (message_total m "a missing") as (mm & Hmm).
    rewrite Hmm. simpl. exists [mm], []. split_and!; eauto.
  - rewrite (bool_decide_eq_true_2 (m ≠ ∅)), (bool_decide_eq_false_2 (m = ∅)),
      (bool_decide_eq_true_2 (u ≠ ∅)), (bool_decide_eq_false_2 (u = ∅)) by done.
    destruct (message_total m "a missing") as (mm & Hmm).
    destruct (message_total u "an unrecognized") as (mu & Hmu).
    rewrite Hmm, Hmu. simpl. exists [mm], [mu]. split_and!; eauto.
Qed.

End expunger_messages.

Section expunger_time_analysis.
Import expunger.
Context {Meta : Type}.
Variable verdict : State → ChargeWithSummary Meta → ref → TimeEligibility.

Lemma clear_eligibility_alter v r (m : gmap ref Charge) :
  clear_eligibility <$> alter (set_eligibility v) r m = clear_eligibility <$> m.
Proof.
  apply map_eq. intros q. rewrite !lookup_fmap.
  destruct (decide (r = q)) as [->|Hne].
  - rewrite lookup_alter_eq. by destruct (m !! q).
  - by rewrite lookup_alter_ne.
Qed.

Lemma evaluate_group_untouched g rs st :
  untouched_by_analysis rs st (foldl (evaluate_charge verdict g) st rs).
Proof.
  revert st. induction rs as [|r rs IH]; intros st; simpl.
  - by repeat split.
  - destruct (IH (evaluate_charge verdict g st r)) as (Hc & Hr & Hf & Hq).
    split_and!.
    + by rewrite Hc.
    + by rewrite Hr.
    + rewrite Hf. simpl. apply clear_eligibility_alter.
    + intros q Hnot. apply not_elem_of_cons in Hnot as [Hne Hnot].
      rewrite (Hq q Hnot). simpl. by rewrite lookup_alter_ne.
Qed.

Lemma TimeAnalyzer_evaluate_untouched groups st :
  untouched_by_analysis (concat (map group_charges groups)) st
    (TimeAnalyzer_evaluate verdict groups st).
Proof.
  unfold TimeAnalyzer_evaluate. revert st.
  induction groups as [|g groups IH]; intros st; simpl.
  - by repeat split.
  - destruct (IH (foldl (evaluate_charge verdict g) st (group_charges g)))
      as (Hc & Hr & Hf & Hq).
    destruct (evaluate_group_untouched g (group_charges g) st)
      as (Hc' & Hr' & Hf' & Hq').
    split_and!.
    + by rewrite Hc.
    + by rewrite Hr.
    + by rewrite Hf.
    + intros q Hnot. apply not_elem_of_app in Hnot as [Hnot1 Hnot2].
      by rewrite (Hq q Hnot2), (Hq' q Hnot1).
Qed.

(** [run] on a well-formed record, step by step. *)
Lemma run_spec self st :
  well_formed st = true →
  ∃ m u e1 e2 st1,
    _filter_cases_with_errors st (record_charges st) = Ok (m, u)
    ∧ diagnostics_of m "a missing" e1
    ∧ diagnostics_of u "an unrecognized" e2
    ∧ charge_objs st1 = charge_objs st
    ∧ case_objs st1 = case_objs st
    ∧ cases (record st1) = cases (record st)
    ∧ errors (record st1)
      = errors (record st) ++ open_cases_diagnostics st ++ e1 ++ e2
    ∧ run verdict self st
      = Ok (bool_decide (length (open_cases st) = 0),
            TimeAnalyzer_evaluate verdict (charges_with_summary self) st1).
Proof.
  intros Hwf.
  destruct (filter_record_spec st Hwf) as (m & u & Hsets & _).
  destruct (_build_disposition_errors_spec st _ m u Hsets)
    as (e1 & e2 & Herrs & He1 & He2).
  exists m, u, e1, e2. unfold run.
  rewrite (get_cases_well_formed st Hwf). simpl.
  fold (open_cases st). unfold open_cases_diagnostics.
  destruct (bool_decide (0 < length (open_cases st))).
  - rewrite Record_charges_extend_errors, (Record_charges_well_formed st Hwf).
    simpl. rewrite _build_disposition_errors_extend_errors, Herrs. simpl.
    exists (extend_errors (e1 ++ e2)
              (extend_errors
                 [open_cases_message
                    (String.concat "," (map case_number (open_cases st)))] st)).
    split_and!; try done. simpl. by rewrite <- !app_assoc.
  - rewrite (Record_charges_well_formed st Hwf). simpl. rewrite Herrs. simpl.
    exists (extend_errors (e1 ++ e2) st). by split_and!.
Qed.

End expunger_time_analysis.

Section expunger_run.
Import expunger.
Context {Meta : Type}.
Variable verdict : State → ChargeWithSummary Meta → ref → TimeEligibility.

Lemma length_zero_iff_nil {A : Type} (l : list A) : length l = 0 ↔ l = [].
Proof. destruct l; simpl; split; (done || lia). Qed.

Lemma prefix_append (p s : string) : String.prefix p (p +:+ s) = true.
Proof.
  induction p as [|a p IH]; simpl; [by destruct s|].
  destruct (Ascii.ascii_dec a a) as [_|Hne]; [done|by destruct Hne].
Qed.

Lemma open_cases_message_is_open_cases_diagnostic case_numbers :
  is_open_cases_diagnostic (open_cases_message case_numbers) = true.
Proof. apply prefix_append. Qed.

Lemma message_shape s name m :
  _build_disposition_error_message s name = Ok m →
  (∃ x, m = singular_message x name) ∨ (∃ l, m = plural_message l name).
Proof.
  unfold _build_disposition_error_message, set_pop.
  destruct (bool_decide (size s = 1)).
  - destruct (elements s) as [|x l]; simpl; [done|].
    intros [= <-]. left. eauto.
  - intros [= <-]. right. eauto.
Qed.

Lemma diagnostics_of_not_open_cases s name appended :
  (name = "a missing" ∨ name = "an unrecognized") →
  diagnostics_of s name appended →
  Forall (fun e => is_open_cases_diagnostic e = false) appended.
Proof.
  unfold diagnostics_of. intros Hname.
  destruct (bool_decide (s = ∅)); [by intros ->|].
  intros (m & Hm & ->). constructor; [|done].
  apply message_shape in Hm as [(x & ->)|(l & ->)]; by destruct Hname as [->| ->].
Qed.

(** C1.  On every well-formed record [run] returns, and it returns [true]
    exactly when the record has no open case.  The value depends on nothing
    else: another record, with other charges, dispositions and verdicts,
    whose cases answer [closed()] the same way gets the same value. *)
Theorem run_true_iff_no_open_cases (self : Expunger Meta) (st : State) :
  well_formed st = true →
  ∃ b st',
    run verdict self st = Ok (b, st')
    ∧ (b = true ↔ open_cases st = [])
    ∧ ∀ (Meta2 : Type) verdict2 (self2 : Expunger Meta2) st2,
        well_formed st2 = true →
        map closed (record_cases st2) = map closed (record_cases st) →
        ∃ st2', run verdict2 self2 st2 = Ok (b, st2').
Proof.
  intros Hwf.
  destruct (run_spec verdict self st Hwf) as (m & u & e1 & e2 & st1 & H).
  destruct H as (_ & _ & _ & _ & _ & _ & _ & Hrun).
  eexists _, _. split; [exact Hrun|]. split.
  - rewrite bool_decide_eq_true. apply length_zero_iff_nil.
  - intros Meta2 verdict2 self2 st2 Hwf2 Hsame.
    destruct (run_spec verdict2 self2 st2 Hwf2) as (? & ? & ? & ? & st1' & H).
    destruct H as (_ & _ & _ & _ & _ & _ & _ & ->).
    eexists. do 2 f_equal. apply bool_decide_ext.
    assert (Hlen : ∀ l1 l2 : list Case, map closed l1 = map closed l2 →
      length (filter (fun c => closed c = false) l1)
      = length (filter (fun c => closed c = false) l2)).
    { induction l1 as [|c1 l1 IH]; intros [|c2 l2]; simpl; try done.
      intros [= Hc Hl]. rewrite !filter_cons, Hc.
      destruct (decide (closed c2 = false)); simpl; by rewrite (IH l2 Hl). }
    unfold open_cases. by rewrite (Hlen _ _ Hsame).
Qed.

(** C2.  On a well-formed record with an open case [run] returns [false],
    and what it appends to the error log starts with the open-case
    diagnostic: the sentence "All charges are ineligible because there is one
    or more open case: ", then the case numbers of the open cases in the
    order of the record, joined by commas, then the sentences about time
    analysis; no other appended entry is an open-case diagnostic. *)
Theorem open_cases_reported_once (self : Expunger Meta) (st : State) :
  well_formed st = true →
  open_cases st ≠ [] →
  ∃ st' others,
    let case_numbers := String.concat "," (map case_number (open_cases st)) in
    let diagnostic :=
      "All charges are ineligible because there is one or more open case: "
      +:+ case_numbers
      +:+ ". Open cases with valid dispositions are still included in time analysis. Otherwise they are ignored, so time analysis may be inaccurate for other charges." in
    run verdict self st = Ok (false, st')
    ∧ errors (record st') = errors (record st) ++ diagnostic :: others
    ∧ is_open_cases_diagnostic diagnostic = true
    ∧ Forall (fun e => is_open_cases_diagnostic e = false) others.
Proof.
  intros Hwf Hopen.
  destruct (run_spec verdict self st Hwf) as (m & u & e1 & e2 & st1 & H).
  destruct H as (_ & He1 & He2 & _ & _ & _ & Herrors & Hrun).
  assert (Hlen : length (open_cases st) ≠ 0) by by rewrite length_zero_iff_nil.
  exists (TimeAnalyzer_evaluate verdict (charges_with_summary self) st1), (e1 ++ e2).
  cbv zeta.
  fold (open_cases_message (String.concat "," (map case_number (open_cases st)))).
  split_and!.
  - rewrite Hrun. by rewrite bool_decide_eq_false_2.
  - destruct (TimeAnalyzer_evaluate_untouched verdict (charges_with_summary self) st1)
      as (_ & -> & _).
    rewrite Herrors. unfold open_cases_diagnostics.
    rewrite bool_decide_eq_true_2 by lia. done.
  - apply open_cases_message_is_open_cases_diagnostic.
  - apply Forall_app. split.
    + apply (diagnostics_of_not_open_cases m "a missing"); [by left|done].
    + apply (diagnostics_of_not_open_cases u "an unrecognized"); [by right|done].
Qed.

(** C5.  On a well-formed record [run] appends, in this order: the
    open-case diagnostic if there is an open case; one missing-disposition
    diagnostic if that set is not empty, none if it is; one
    unrecognized-disposition diagnostic if that set is not empty, none if
    it is. *)
Theorem disposition_diagnostics_in_order (self : Expunger Meta) (st : State) :
  well_formed st = true →
  ∃ b st' missing unrecognized e_missing e_unrecognized,
    Record_charges st = Ok (record_charges st)
    ∧ _filter_cases_with_errors st (record_charges st) = Ok (missing, unrecognized)
    ∧ run verdict self st = Ok (b, st')
    ∧ diagnostics_of missing "a missing" e_missing
    ∧ diagnostics_of unrecognized "an unrecognized" e_unrecognized
    ∧ errors (record st')
      = errors (record st) ++ open_cases_diagnostics st ++ e_missing ++ e_unrecognized.
Proof.
  intros Hwf.
  destruct (run_spec verdict self st Hwf) as (m & u & e1 & e2 & st1 & H).
  destruct H as (Hsets & He1 & He2 & _ & _ & _ & Herrors & Hrun).
  exists (bool_decide (length (open_cases st) = 0)),
    (TimeAnalyzer_evaluate verdict (charges_with_summary self) st1), m, u, e1, e2.
  split_and!; try done.
  - by apply Record_charges_well_formed.
  - destruct (TimeAnalyzer_evaluate_untouched verdict (charges_with_summary self) st1)
      as (_ & -> & _).
    exact Herrors.
Qed.

End expunger_run.

Section expunger_disposition_sets.
Import expunger.

Lemma contributes_missing_true ch c :
  contributes_missing ch c = true
  ↔ skip_analysis ch = false ∧ disposition ch = None ∧ closed c = true.
Proof.
  unfold contributes_missing.
  rewrite !andb_true_iff, negb_true_iff, bool_decide_eq_true. tauto.
Qed.

Lemma charge_of_record_readable st q ch c :
  well_formed st = true → charge_of_record st q ch c →
  charge_objs st !! q = Some ch ∧ case_objs st !! case ch = Some c.
Proof.
  intros Hwf Hq. split; [by destruct Hq as (? & ? & ? & ? & ?)|].
  by apply (charge_of_record_owner st q).
Qed.

(** C3.  In a well-formed record, the loop body adds the case number of a
    charge to the missing-disposition set exactly when the charge is not
    skip-analysis, has no disposition and its owning case is closed, and
    leaves that set as it was otherwise; so the set built over the record
    holds exactly the case numbers of such charges.  In particular a charge
    without disposition that is skip-analysis, or whose case is open,
    changes neither set. *)
Theorem missing_disposition_contribution (st : State) :
  well_formed st = true →
  (∀ q ch c sets,
      charge_of_record st q ch c →
      ∃ sets',
        filter_step st sets q = Ok sets'
        ∧ sets'.1 = (if contributes_missing ch c
                     then {[ case_number c ]} ∪ sets.1 else sets.1)
        ∧ (contributes_missing ch c = true
           ↔ skip_analysis ch = false ∧ disposition ch = None ∧ closed c = true))
  ∧ (∃ missing unrecognized,
        Record_charges st = Ok (record_charges st)
        ∧ _filter_cases_with_errors st (record_charges st)
          = Ok (missing, unrecognized)
        ∧ ∀ n, n ∈ missing
               ↔ ∃ q ch c, charge_of_record st q ch c
                           ∧ skip_analysis ch = false
                           ∧ disposition ch = None
                           ∧ closed c = true
                           ∧ case_number c = n)
  ∧ (∀ q ch c sets,
        charge_of_record st q ch c →
        disposition ch = None →
        skip_analysis ch = true ∨ closed c = false →
        filter_step st sets q = Ok sets).
Proof.
  intros Hwf. split_and!.
  - intros q ch c sets Hq.
    destruct (charge_of_record_readable st q ch c Hwf Hq) as [Hch Hc].
    exists (after_charge ch c sets). split_and!.
    + by apply filter_step_spec.
    + done.
    + apply contributes_missing_true.
  - destruct (filter_record_spec st Hwf) as (m & u & Hsets & Hm & _).
    exists m, u. split_and!; [by apply Record_charges_well_formed|done|].
    intros n. rewrite Hm. split.
    + intros (q & ch & c & Hq & Hcontrib & Hn).
      apply contributes_missing_true in Hcontrib as (? & ? & ?).
      exists q, ch, c. done.
    + intros (q & ch & c & Hq & ? & ? & ? & Hn).
      exists q, ch, c. split_and!; [done| |done].
      by apply contributes_missing_true.
  - intros q ch c [m u] Hq Hnone Hor.
    destruct (charge_of_record_readable st q ch c Hwf Hq) as [Hch Hc].
    rewrite (filter_step_spec st (m, u) q ch c Hch Hc).
    unfold after_charge, contributes_missing, unrecognized_identifier.
    rewrite Hnone. simpl.
    destruct Hor as [-> | ->]; simpl; [done|].
    by rewrite andb_false_r.
Qed.

(** C4.  In a well-formed record, for a charge that is not skip-analysis
    and whose disposition has status Unrecognized, the loop body adds
    exactly the string made of the case number, a colon, a space and the
    ruling text to the unrecognized-disposition set, and the set built over
    the record contains it.  For either category the message of a
    one-element set is "Case <element> has a charge with <category>
    disposition." followed by the sentences about this charge, and the
    message of a set of two or more is "The following cases have charges
    with <category> disposition.", the sentences about these charges, and
    "Case numbers: " followed by the elements of the set, each once, joined
    by a comma and a space. *)
Theorem unrecognized_identifier_and_phrasing (st : State) :
  well_formed st = true →
  (∀ q ch c d sets,
      charge_of_record st q ch c →
      skip_analysis ch = false →
      disposition ch = Some d →
      status d = UNRECOGNIZED →
      filter_step st sets q
      = Ok (sets.1, {[ case_number c +:+ ": " +:+ ruling d ]} ∪ sets.2))
  ∧ (∃ missing unrecognized,
        _filter_cases_with_errors st (record_charges st)
        = Ok (missing, unrecognized)
        ∧ ∀ q ch c d,
            charge_of_record st q ch c →
            skip_analysis ch = false →
            disposition ch = Some d →
            status d = UNRECOGNIZED →
            case_number c +:+ ": " +:+ ruling d ∈ unrecognized)
  ∧ (∀ (s : gset string) (name : string),
        size s = 1 →
        ∃ x, s = {[ x ]}
             ∧ _build_disposition_error_message s name
               = Ok ("Case " +:+ x +:+ " has a charge with " +:+ name
                     +:+ " disposition." +:+ LF
                     +:+ "This might be an error in the OECI database. Time analysis is ignoring this charge and may be inaccurate for other charges."))
  ∧ (∀ (s : gset string) (name : string),
        (2 ≤ size s)%nat →
        _build_disposition_error_message s name
        = Ok ("The following cases have charges with " +:+ name
              +:+ " disposition." +:+ LF
              +:+ "This might be an error in the OECI database. Time analysis is ignoring these charges and may be inaccurate for other charges."
              +:+ LF +:+ "Case numbers: " +:+ String.concat ", " (elements s))
        ∧ NoDup (elements s)
        ∧ ∀ x, x ∈ elements s ↔ x ∈ s).
Proof.
  intros Hwf.
  assert (Hid : ∀ ch c d, skip_analysis ch = false → disposition ch = Some d →
    status d = UNRECOGNIZED →
    unrecognized_identifier ch c = Some (case_number c +:+ ": " +:+ ruling d)).
  { intros ch c d Hskip Hd Hstatus. unfold unrecognized_identifier.
    rewrite Hd, Hskip. simpl. by rewrite bool_decide_eq_true_2. }
  split_and!.
  - intros q ch c d [m u] Hq Hskip Hd Hstatus.
    destruct (charge_of_record_readable st q ch c Hwf Hq) as [Hch Hc].
    rewrite (filter_step_spec st (m, u) q ch c Hch Hc).
    unfold after_charge. rewrite (Hid ch c d Hskip Hd Hstatus).
    unfold contributes_missing. rewrite Hd, Hskip. done.
  - destruct (filter_record_spec st Hwf) as (m & u & Hsets & _ & Hu).
    exists m, u. split; [done|].
    intros q ch c d Hq Hskip Hd Hstatus. apply Hu.
    exists q, ch, c. split; [done|]. by apply Hid.
  - intros s name Hone.
    apply size_1_elem_of in Hone as (x & Hx). apply leibniz_equiv in Hx.
    exists x. split; [done|]. subst s. apply message_singleton.
  - intros s name Hmany. split_and!.
    + apply message_plural. lia.
    + apply NoDup_elements.
    + intros x. apply elem_of_elements.
Qed.

End expunger_disposition_sets.

Section expunger_deduplication.
Import expunger.

(** The entries of a message are the elements of its set, each once. *)
Lemma message_entries (s : gset string) (name : string) :
  ∃ entries,
    NoDup entries
    ∧ (∀ x, x ∈ entries ↔ x ∈ s)
    ∧ _build_disposition_error_message s name
      = Ok (match entries with
            | [x] => singular_message x name
            | _ => plural_message (String.concat ", " entries) name
            end).
Proof.
  exists (elements s). split; [apply NoDup_elements|].
  split; [intros x; apply elem_of_elements|].
  unfold _build_disposition_error_message, set_pop.
  change (size s) with (length (elements s)).
  by destruct (elements s) as [|x [|y l]].
Qed.

(** C6, as stated, fails.  The closed case "C3" has two charges with
    unrecognized dispositions, ruled "Foo" and "Bar": the
    unrecognized-disposition set has two entries that name "C3", and the
    diagnostic that [run] appends last contains "C3" twice. *)
Lemma case_listed_twice_for_two_rulings :
  well_formed closed_record = true
  ∧ ¬ each_case_listed_at_most_once closed_record
  ∧ ∃ st' m,
      expunge one_per_group indeterminate closed_record = Ok (true, st')
      ∧ last (errors (record st')) = Some m
      ∧ occurrences "C3" m = 2.
Proof.
  split; [by vm_compute|]. split.
  - intros Hclaim.
    assert (Hsets : _filter_cases_with_errors closed_record
                      (record_charges closed_record)
                    = Ok ({[ "C4" ]}, {[ "C3: Foo"; "C3: Bar" ]}))
      by (vm_compute; reflexivity).
    destruct (Hclaim _ _ (mkCase "C3" true [10; 11]) Hsets) as [_ Hle].
    { apply list_elem_of_In. vm_compute. by left. }
    vm_compute in Hle. lia.
  - eexists _, _. split_and!; by vm_compute.
Qed.

(** C6, amended.  In a well-formed record the missing-disposition set holds
    the case numbers of the contributing charges and the
    unrecognized-disposition set holds their identifiers
    "<case_number>: <ruling text>"; the message built from a set lists the
    elements of the set, each exactly once.  So a case number is listed once
    in the missing-disposition diagnostic however many of its charges
    contribute, and an identifier once in the unrecognized-disposition
    diagnostic: there a case number is listed once for each distinct ruling
    text. *)
Theorem diagnostic_entries_listed_once (st : State) :
  well_formed st = true →
  ∃ missing unrecognized,
    _filter_cases_with_errors st (record_charges st) = Ok (missing, unrecognized)
    ∧ (∀ n, n ∈ missing
            ↔ ∃ q ch c, charge_of_record st q ch c
                        ∧ contributes_missing ch c = true
                        ∧ case_number c = n)
    ∧ (∀ i, i ∈ unrecognized
            ↔ ∃ q ch c, charge_of_record st q ch c
                        ∧ unrecognized_identifier ch c = Some i)
    ∧ ∀ (s : gset string) (name : string),
        s = missing ∨ s = unrecognized →
        ∃ entries,
          NoDup entries
          ∧ (∀ x, x ∈ entries ↔ x ∈ s)
          ∧ _build_disposition_error_message s name
            = Ok (match entries with
                  | [x] => singular_message x name
                  | _ => plural_message (String.concat ", " entries) name
                  end).
Proof.
  intros Hwf.
  destruct (filter_record_spec st Hwf) as (m & u & Hsets & Hm & Hu).
  exists m, u. split_and!; try done.
  intros s name _. apply message_entries.
Qed.

End expunger_deduplication.

Section expunger_frame.
Import expunger.
Context {Meta : Type}.
Variable summarize : State → list ref → list (ChargeWithSummary Meta).
Variable verdict : State → ChargeWithSummary Meta → ref → TimeEligibility.

Lemma one_per_group_contract : summarizer_contract one_per_group.
Proof.
  intros st cs. unfold one_per_group.
  induction cs as [|c cs IH]; simpl; [done|]. by rewrite IH.
Qed.

(** The list comprehension of [_without_skippable_charges] is a filter. *)
Lemma _without_skippable_charges_spec st qs :
  Forall (fun q => is_Some (charge_objs st !! q)) qs →
  ∃ kept,
    _without_skippable_charges st qs = Ok kept
    ∧ ∀ q, q ∈ kept
           ↔ q ∈ qs ∧ ∃ ch, charge_objs st !! q = Some ch
                            ∧ skip_analysis ch = false
                            ∧ is_Some (disposition ch).
Proof.
  induction 1 as [|q qs [ch Hch] _ (kept & IH & Hkept)]; simpl.
  - exists []. split; [done|]. intros q. split; [by intros []%elem_of_nil|].
    by intros [[]%elem_of_nil _].
  - unfold get_charge. rewrite Hch, IH. simpl.
    eexists. split; [done|]. intros q'.
    assert (Hdrop : skip_analysis ch = true ∨ disposition ch = None →
      (q' ∈ kept ↔ q' ∈ q :: qs
                   ∧ ∃ ch0, charge_objs st !! q' = Some ch0
                            ∧ skip_analysis ch0 = false
                            ∧ is_Some (disposition ch0))).
    { intros Hor. rewrite Hkept, elem_of_cons. split.
      - intros [Hq' Hrest]. split; [by right|done].
      - intros [[->|Hq'] (ch' & Hch' & Hskip' & [d' Hd'])]; [|by eauto].
        rewrite Hch in Hch'. injection Hch' as <-.
        destruct Hor; congruence. }
    destruct (skip_analysis ch) eqn:Hskip; simpl; [by apply Hdrop; left|].
    destruct (disposition ch) as [d|] eqn:Hd; simpl; [|by apply Hdrop; right].
    rewrite !elem_of_cons, Hkept. split.
    + intros [->|[Hq' Hrest]]; [|by split; [right|]].
      split; [by left|]. exists ch. rewrite Hd. eauto.
    + intros [[->|Hq'] Hrest]; [by left|by right].
Qed.

Lemma record_charges_exist st :
  well_formed st = true →
  Forall (fun q => is_Some (charge_objs st !! q)) (record_charges st).
Proof.
  intros Hwf. apply Forall_forall. intros q Hq.
  apply (elem_of_record_charges st q Hwf) in Hq as (ch & c & Hq).
  destruct Hq as (? & ? & ? & ? & ->). eauto.
Qed.

(** Construction and [run] on a well-formed record. *)
Lemma expunge_spec st :
  well_formed st = true →
  ∃ analyzable st1 appended,
    _without_skippable_charges st (record_charges st) = Ok analyzable
    ∧ (∀ q, q ∈ analyzable
            ↔ q ∈ record_charges st
              ∧ ∃ ch, charge_objs st !! q = Some ch
                      ∧ skip_analysis ch = false ∧ is_Some (disposition ch))
    ∧ charge_objs st1 = charge_objs st
    ∧ case_objs st1 = case_objs st
    ∧ cases (record st1) = cases (record st)
    ∧ errors (record st1) = errors (record st) ++ appended
    ∧ expunge summarize verdict st
      = Ok (bool_decide (length (open_cases st) = 0),
            TimeAnalyzer_evaluate verdict (summarize st analyzable) st1).
Proof.
  intros Hwf.
  destruct (_without_skippable_charges_spec st _ (record_charges_exist st Hwf))
    as (kept & Hkept & Hin).
  destruct (run_spec verdict (mkExpunger (summarize st kept)) st Hwf)
    as (m & u & e1 & e2 & st1 & H).
  destruct H as (_ & _ & _ & Hch & Hc & Hcases & Herrors & Hrun).
  exists kept, st1, (open_cases_diagnostics st ++ e1 ++ e2).
  split_and!; try done.
  unfold expunge, __init__.
  rewrite (Record_charges_well_formed st Hwf). simpl. rewrite Hkept. simpl.
  exact Hrun.
Qed.

End expunger_frame.

Section expunger_effects.
Import expunger.
Context {Meta : Type}.
Variable summarize : State → list ref → list (ChargeWithSummary Meta).
Variable verdict : State → ChargeWithSummary Meta → ref → TimeEligibility.

(** C7.  With a summarizer that keeps its contract, on a well-formed
    record: a charge object that is skip-analysis, or that has no
    disposition, is not among the analyzable charges that [__init__] hands
    to the summarizer, and after [run] the object is what it was before, so
    an eligibility slot that was unset is still unset. *)
Theorem skipped_charges_keep_eligibility_unset (st : State) :
  summarizer_contract summarize →
  well_formed st = true →
  ∃ analyzable b st',
    Record_charges st = Ok (record_charges st)
    ∧ _without_skippable_charges st (record_charges st) = Ok analyzable
    ∧ expunge summarize verdict st = Ok (b, st')
    ∧ ∀ q ch,
        charge_objs st !! q = Some ch →
        skip_analysis ch = true ∨ disposition ch = None →
        (q ∉ analyzable)
        ∧ charge_objs st' !! q = Some ch
        ∧ (eligibility ch = None →
           eligibility <$> (charge_objs st' !! q) = Some None).
Proof.
  intros Hcontract Hwf.
  destruct (expunge_spec summarize verdict st Hwf)
    as (kept & st1 & appended & Hkept & Hin & Hch1 & _ & _ & _ & Hrun).
  eexists kept, _, _. split_and!; [by apply Record_charges_well_formed|done|exact Hrun|].
  intros q ch Hch Hor.
  assert (Hnot : q ∉ kept).
  { intros (_ & ch' & Hch' & Hskip & [d Hd])%Hin.
    rewrite Hch in Hch'. injection Hch' as <-. destruct Hor; congruence. }
  assert (Hsame : charge_objs (TimeAnalyzer_evaluate verdict (summarize st kept) st1) !! q
                  = Some ch).
  { destruct (TimeAnalyzer_evaluate_untouched verdict (summarize st kept) st1)
      as (_ & _ & _ & Hq).
    rewrite Hq, Hch1; [done|]. by rewrite (Hcontract st kept). }
  split_and!; [done|done|]. intros Hunset. by rewrite Hsame; simpl; rewrite Hunset.
Qed.

(** C8.  With a summarizer that keeps its contract, on a well-formed
    record, construction and [run] leave a store in which: the error log is
    the old log followed by the appended entries; the record lists the same
    case objects; every case object is as it was; the store holds the same
    charge objects, each as it was but for its eligibility slot; and a
    charge object that is not a charge of the record is as it was,
    eligibility included. *)
Theorem run_only_appends_errors_and_sets_eligibility (st : State) :
  summarizer_contract summarize →
  well_formed st = true →
  ∃ b st' appended,
    expunge summarize verdict st = Ok (b, st')
    ∧ errors (record st') = errors (record st) ++ appended
    ∧ cases (record st') = cases (record st)
    ∧ case_objs st' = case_objs st
    ∧ clear_eligibility <$> charge_objs st' = clear_eligibility <$> charge_objs st
    ∧ ∀ q, q ∉ record_charges st → charge_objs st' !! q = charge_objs st !! q.
Proof.
  intros Hcontract Hwf.
  destruct (expunge_spec summarize verdict st Hwf)
    as (kept & st1 & appended & Hkept & Hin & Hch1 & Hc1 & Hcases1 & Herrors1 & Hrun).
  destruct (TimeAnalyzer_evaluate_untouched verdict (summarize st kept) st1)
    as (Hc & Hr & Hf & Hq).
  eexists _, _, appended. split; [exact Hrun|]. split_and!.
  - by rewrite Hr.
  - by rewrite Hr.
  - by rewrite Hc.
  - by rewrite Hf, Hch1.
  - intros q Hnot. rewrite Hq, Hch1; [done|].
    rewrite (Hcontract st kept). intros [Hrec _]%Hin. done.
Qed.

(** C9.  On a well-formed record, whatever its open cases, absent
    dispositions and unrecognized statuses, construction and [run] raise
    nothing: they return a boolean, and the irregularities show only as
    entries appended to the error log. *)
Theorem run_never_raises (st : State) :
  well_formed st = true →
  ∃ b st' appended,
    expunge summarize verdict st = Ok (b, st')
    ∧ errors (record st') = errors (record st) ++ appended.
Proof.
  intros Hwf.
  destruct (expunge_spec summarize verdict st Hwf)
    as (kept & st1 & appended & _ & _ & _ & _ & _ & Herrors1 & Hrun).
  destruct (TimeAnalyzer_evaluate_untouched verdict (summarize st kept) st1)
    as (_ & Hr & _).
  eexists _, _, appended. split; [exact Hrun|]. by rewrite Hr.
Qed.

End expunger_effects.

(** ** The theorems at work on the scenarios *)

Section expunger_scenarios.
Import expunger.

Lemma run_true_iff_no_open_cases_witness :
  well_formed closed_record = true
  ∧ ∃ st', run indeterminate mixed_expunger closed_record = Ok (true, st').
Proof.
  split; [by vm_compute|].
  destruct (run_true_iff_no_open_cases indeterminate mixed_expunger closed_record)
    as (b & st' & Hrun & Hiff & _); [by vm_compute|].
  exists st'. rewrite Hrun. do 2 f_equal. apply Hiff. by vm_compute.
Defined.

Lemma open_cases_reported_once_witness :
  well_formed two_open_record = true
  ∧ open_cases two_open_record ≠ []
  ∧ ∃ st' others,
      run indeterminate (mkExpunger []) two_open_record = Ok (false, st')
      ∧ errors (record st')
        = "All charges are ineligible because there is one or more open case: C7,C9. Open cases with valid dispositions are still included in time analysis. Otherwise they are ignored, so time analysis may be inaccurate for other charges."
          :: others.
Proof.
  split; [by vm_compute|]. split; [by vm_compute|].
  destruct (open_cases_reported_once indeterminate (mkExpunger []) two_open_record)
    as (st' & others & Hrun & Herrors & _); [by vm_compute|by vm_compute|].
  exists st', others. split; [exact Hrun|].
  assert (Hnumbers : String.concat "," (map case_number (open_cases two_open_record))
                     = "C7,C9") by (by vm_compute).
  rewrite Hnumbers in Herrors. exact Herrors.
Defined.

Lemma missing_disposition_contribution_witness :
  well_formed closed_record = true
  ∧ ∃ missing unrecognized,
      _filter_cases_with_errors closed_record (record_charges closed_record)
      = Ok (missing, unrecognized)
      ∧ ("C4" ∈ missing
         ↔ ∃ q ch c, charge_of_record closed_record q ch c
                     ∧ skip_analysis ch = false
                     ∧ disposition ch = None
                     ∧ closed c = true
                     ∧ case_number c = "C4").
Proof.
  split; [by vm_compute|].
  destruct (missing_disposition_contribution closed_record)
    as (_ & (m & u & _ & Hsets & Hm) & _); [by vm_compute|].
  exists m, u. split; [exact Hsets|apply Hm].
Defined.

Lemma unrecognized_identifier_and_phrasing_witness :
  well_formed closed_record = true
  ∧ _build_disposition_error_message {[ "C4" ]} "a missing"
    = Ok ("Case C4 has a charge with a missing disposition." +:+ LF
          +:+ "This might be an error in the OECI database. Time analysis is ignoring this charge and may be inaccurate for other charges.")
  ∧ ∃ missing unrecognized listing,
      _filter_cases_with_errors closed_record (record_charges closed_record)
      = Ok (missing, unrecognized)
      ∧ "C3: Foo" ∈ unrecognized
      ∧ listing ≡ₚ ["C3: Foo"; "C3: Bar"]
      ∧ _build_disposition_error_message unrecognized "an unrecognized"
        = Ok ("The following cases have charges with an unrecognized disposition."
              +:+ LF
              +:+ "This might be an error in the OECI database. Time analysis is ignoring these charges and may be inaccurate for other charges."
              +:+ LF +:+ "Case numbers: " +:+ String.concat ", " listing).
Proof.
  split; [by vm_compute|].
  destruct (unrecognized_identifier_and_phrasing closed_record)
    as (_ & (m & u & Hsets & Hu) & Hsingular & Hplural); [by vm_compute|].
  split.
  - destruct (Hsingular {[ "C4" ]} "a missing") as (x & Hx & Hmessage);
      [by vm_compute|].
    assert (Hin : "C4" ∈ ({[ x ]} : gset string))
      by (rewrite <- Hx; by apply elem_of_singleton).
    apply elem_of_singleton in Hin. rewrite <- Hin in Hmessage. exact Hmessage.
  - assert (Hcomputed : _filter_cases_with_errors closed_record
                          (record_charges closed_record)
                        = Ok ({[ "C4" ]}, {[ "C3: Foo"; "C3: Bar" ]}))
      by (vm_compute; reflexivity).
    assert (Hsame : Ok (m, u) = Ok ({[ "C4" ]}, {[ "C3: Foo"; "C3: Bar" ]}))
      by (by rewrite <- Hsets, <- Hcomputed).
    injection Hsame as Hm Hunrecognized.
    destruct (Hplural u "an unrecognized") as (Hmessage & _ & _).
    { rewrite Hunrecognized. by vm_compute. }
    exists m, u, (elements u). split; [exact Hsets|]. split.
    { apply (Hu 10 (mkCharge 0 false (Some (mkDisposition UNRECOGNIZED "Foo")) None)
                (mkCase "C3" true [10; 11]) (mkDisposition UNRECOGNIZED "Foo"));
        try reflexivity.
      exists 0. split_and!; [| by vm_compute | | by vm_compute].
      - apply list_elem_of_In. simpl. by left.
      - apply list_elem_of_In. simpl. by left. }
    split; [|exact Hmessage].
    rewrite Hunrecognized.
    assert (Hlisting : elements ({[ "C3: Foo"; "C3: Bar" ]} : gset string)
                       = ["C3: Foo"; "C3: Bar"]) by (by vm_compute).
    by rewrite Hlisting.
Defined.

Lemma disposition_diagnostics_in_order_witness :
  well_formed closed_record = true
  ∧ ∃ st' e_missing e_unrecognized,
      run indeterminate mixed_expunger closed_record = Ok (true, st')
      ∧ diagnostics_of {[ "C4" ]} "a missing" e_missing
      ∧ diagnostics_of {[ "C3: Foo"; "C3: Bar" ]} "an unrecognized" e_unrecognized
      ∧ errors (record st') = e_missing ++ e_unrecognized.
Proof.
  split; [by vm_compute|].
  destruct (disposition_diagnostics_in_order indeterminate mixed_expunger closed_record)
    as (b & st' & m & u & e1 & e2 & _ & Hsets & Hrun & He1 & He2 & Herrors);
    [by vm_compute|].
  assert (Hcomputed : _filter_cases_with_errors closed_record
                        (record_charges closed_record)
                      = Ok ({[ "C4" ]}, {[ "C3: Foo"; "C3: Bar" ]}))
    by (vm_compute; reflexivity).
  rewrite Hsets in Hcomputed. injection Hcomputed as -> ->.
  exists st', e1, e2. split_and!; [|exact He1|exact He2|exact Herrors].
  rewrite Hrun. do 2 f_equal.
  destruct (run indeterminate mixed_expunger closed_record) as [[b' ?]|] eqn:E;
    [|discriminate].
  vm_compute in E. congruence.
Defined.

Lemma diagnostic_entries_listed_once_witness :
  well_formed closed_record = true
  ∧ ∃ missing unrecognized entries,
      _filter_cases_with_errors closed_record (record_charges closed_record)
      = Ok (missing, unrecognized)
      ∧ NoDup entries
      ∧ (∀ x, x ∈ entries ↔ x ∈ unrecognized)
      ∧ _build_disposition_error_message unrecognized "an unrecognized"
        = Ok (match entries with
              | [x] => singular_message x "an unrecognized"
              | _ => plural_message (String.concat ", " entries) "an unrecognized"
              end).
Proof.
  split; [by vm_compute|].
  destruct (diagnostic_entries_listed_once closed_record)
    as (m & u & Hsets & _ & _ & Hentries); [by vm_compute|].
  destruct (Hentries u "an unrecognized") as (entries & Hnodup & Hin & Hmsg);
    [by right|].
  exists m, u, entries. split; [exact Hsets|]. split; [exact Hnodup|].
  split; [exact Hin|exact Hmsg].
Defined.

Lemma skipped_charges_keep_eligibility_unset_witness :
  summarizer_contract one_per_group
  ∧ well_formed mixed_record = true
  ∧ ∃ b st',
      expunge one_per_group indeterminate mixed_record = Ok (b, st')
      ∧ eligibility <$> (charge_objs st' !! 13) = Some None
      ∧ eligibility <$> (charge_objs st' !! 12) = Some None.
Proof.
  split; [apply one_per_group_contract|]. split; [by vm_compute|].
  destruct (skipped_charges_keep_eligibility_unset one_per_group indeterminate
              mixed_record one_per_group_contract)
    as (kept & b & st' & _ & _ & Hrun & Hkeep); [by vm_compute|].
  exists b, st'. split; [exact Hrun|]. split.
  - apply (Hkeep 13 (mkCharge 1 true None None)); [by vm_compute|by left|done].
  - apply (Hkeep 12 (mkCharge 1 false None None)); [by vm_compute|by right|done].
Defined.

Lemma run_only_appends_errors_and_sets_eligibility_witness :
  summarizer_contract one_per_group
  ∧ well_formed mixed_record = true
  ∧ ∃ b st' appended,
      expunge one_per_group indeterminate mixed_record = Ok (b, st')
      ∧ errors (record st') = ["loaded with warnings"] ++ appended
      ∧ case_objs st' = case_objs mixed_record.
Proof.
  split; [apply one_per_group_contract|]. split; [by vm_compute|].
  destruct (run_only_appends_errors_and_sets_eligibility one_per_group indeterminate
              mixed_record one_per_group_contract)
    as (b & st' & appended & Hrun & Herrors & _ & Hcases & _); [by vm_compute|].
  exists b, st', appended. split; [exact Hrun|]. split; [exact Herrors|exact Hcases].
Defined.

Lemma run_never_raises_witness :
  well_formed mixed_record = true
  ∧ ∃ b st', expunge one_per_group indeterminate mixed_record = Ok (b, st').
Proof.
  split; [by vm_compute|].
  destruct (run_never_raises one_per_group indeterminate mixed_record)
    as (b & st' & appended & Hrun & _); [by vm_compute|].
  exists b, st'. exact Hrun.
Defined.

End expunger_scenarios.

(** * Properties of the user-creation endpoint *)

Section users_post.
Import users.

Lemma required_fields_present (data : gmap string Json) :
  (∀ field, field ∈ required_fields → is_Some (data !! field)) →
  forallb (fun field => bool_decide (is_Some (data !! field))) required_fields = true.
Proof.
  intros Hall. apply forallb_forall. intros field Hin.
  apply bool_decide_eq_true, Hall. by apply list_elem_of_In.
Qed.

(** C10, as stated, fails.  An admin's request whose body is only
    {"password": "short"} is answered 400 by [check_data_fields], before
    the length of the password is looked at. *)
Lemma short_password_answered_400_when_fields_missing :
  get_json only_password = Some {[ "password" := JString "short" ]}
  ∧ str_len "short" = 5
  ∧ status_of (post only_password empty_world).1 = 400
  ∧ ¬ short_password_always_422 demo_services.
Proof.
  split; [done|]. split; [done|]. split; [by vm_compute|].
  intros Hclaim.
  pose proof (Hclaim only_password empty_world
                {[ "password" := JString "short" ]} "short") as H.
  assert (Hstatus : status_of (post only_password empty_world).1 = 400)
    by (by vm_compute).
  rewrite Hstatus in H. discriminate H.
  - done.
  - by vm_compute.
  - simpl. lia.
Qed.

(** C10, amended.  For every request whose 'password' field is a string of
    fewer than 8 characters, [post] leaves the world as it found it:
    [user.create] and [generate_password_hash] are not called, no user is
    created.  The answer is the gate's when the admin gate rejects the
    request, 400 when one of the five required fields is missing, and 422
    otherwise. *)
Theorem short_password_creates_no_user {S : Services}
    (req : Request) (w : World S) (data : gmap string Json) (s : string) :
  get_json req = Some data →
  data !! "password" = Some (JString s) →
  (str_len s < 8)%nat →
  (post req w).2 = w
  ∧ (∀ rejection, admin_gate S req = Some rejection → (post req w).1 = rejection)
  ∧ (admin_gate S req = None →
     (∃ field, field ∈ required_fields ∧ data !! field = None) →
     status_of (post req w).1 = 400)
  ∧ (admin_gate S req = None →
     (∀ field, field ∈ required_fields → is_Some (data !! field)) →
     post req w = (Aborted 422 "New password is less than 8 characters long!", w)).
Proof.
  intros Hjson Hpassword Hshort.
  unfold post, admin_auth_required.
  destruct (admin_gate S req) as [rejection|] eqn:Hgate.
  { split_and!; [done|by intros ? [= <-]|done|done]. }
  unfold post_body, bind, check_data_fields, ret, error. rewrite Hjson.
  cbv beta iota.
  change ["email"; "name"; "group_name"; "password"; "admin"] with required_fields.
  destruct (forallb (fun field => bool_decide (is_Some (data !! field)))
              required_fields) eqn:Hfields; cbv beta iota.
  - unfold getitem, ret. rewrite Hpassword. cbv beta iota.
    unfold lift, len, ret. cbv beta iota.
    rewrite bool_decide_eq_true_2 by done. cbv beta iota.
    split_and!; [done|done| |done].
    intros _ (field & Hin & Hnone).
    rewrite forallb_forall in Hfields.
    apply list_elem_of_In, Hfields, bool_decide_eq_true in Hin.
    rewrite Hnone in Hin. by destruct Hin.
  - split_and!; [done|done|done|].
    intros _ Hall. by rewrite required_fields_present in Hfields.
Qed.

Lemma short_password_creates_no_user_witness :
  str_len "ééééééé" = 7
  ∧ post (S := demo_services) (request_with_password (JString "ééééééé")) empty_world
    = (Aborted 422 "New password is less than 8 characters long!", empty_world).
Proof.
  split; [reflexivity|].
  assert (Hgate : admin_gate demo_services
                    (request_with_password (JString "ééééééé")) = None)
    by (by vm_compute).
  assert (Hpassword : data_with_password (JString "ééééééé") !! "password"
                      = Some (JString "ééééééé")) by (by vm_compute).
  assert (Hshort : (str_len "ééééééé" < 8)%nat) by (simpl; lia).
  assert (Hfields : ∀ field, field ∈ required_fields →
                      is_Some (data_with_password (JString "ééééééé") !! field)).
  { intros field Hin. apply list_elem_of_In in Hin. simpl in Hin.
    destruct Hin as [<-|[<-|[<-|[<-|[<-|[]]]]]];
      refine (bool_decide_unpack _ _); by vm_compute. }
  destruct (short_password_creates_no_user (S := demo_services)
              (request_with_password (JString "ééééééé")) empty_world
              (data_with_password (JString "ééééééé")) "ééééééé"
              eq_refl Hpassword Hshort)
    as (_ & _ & _ & H422).
  exact (H422 Hgate Hfields).
Defined.

End users_post.

(** * Further properties of the expunger *)

Section expunger_filtering.
Import expunger.

Lemma _without_skippable_charges_filter st qs :
  Forall (fun q => is_Some (charge_objs st !! q)) qs →
  _without_skippable_charges st qs
  = Ok (filter (fun q => analyzable st q = true) qs).
Proof.
  induction 1 as [|q qs [ch Hch] _ IH]; simpl; [done|].
  unfold get_charge. rewrite Hch, IH. simpl. rewrite filter_cons.
  assert (Htest : analyzable st q
                  = negb (skip_analysis ch) && bool_decide (is_Some (disposition ch)))
    by (unfold analyzable; by rewrite Hch).
  rewrite <- Htest. destruct (analyzable st q); by destruct (decide _).
Qed.

(** X1.  On charges that are all in the store, [_without_skippable_charges]
    returns the charges that pass the test, in the order of the input and
    as often as they occur there; applied to its own result it returns that
    result. *)
Theorem without_skippable_charges_keeps_order (st : State) (qs : list ref) :
  Forall (fun q => is_Some (charge_objs st !! q)) qs →
  ∃ kept,
    _without_skippable_charges st qs = Ok kept
    ∧ kept = filter (fun q => analyzable st q = true) qs
    ∧ kept `sublist_of` qs
    ∧ _without_skippable_charges st kept = Ok kept.
Proof.
  intros Hall. eexists. split; [by apply _without_skippable_charges_filter|].
  split; [done|]. split; [apply sublist_filter|].
  rewrite _without_skippable_charges_filter.
  - f_equal. rewrite list_filter_filter. apply list_filter_iff. tauto.
  - apply Forall_forall. intros q [_ Hq]%list_elem_of_filter.
    by apply (proj1 (Forall_forall _ _) Hall).
Qed.

Context {Meta : Type}.
Variable summarize : State → list ref → list (ChargeWithSummary Meta).

(** X2.  In a well-formed record, a charge that is not skip-analysis and
    whose disposition has status Unrecognized is kept among the analyzable
    charges: [__init__] hands it to the summarizer, although [run] reports
    it. *)
Theorem unrecognized_charge_is_analyzable
    (st : State) (q : ref) (ch : Charge) (c : Case) (d : Disposition) :
  well_formed st = true →
  charge_of_record st q ch c →
  skip_analysis ch = false →
  disposition ch = Some d →
  status d = UNRECOGNIZED →
  ∃ kept,
    _without_skippable_charges st (record_charges st) = Ok kept
    ∧ q ∈ kept
    ∧ __init__ summarize st = Ok (mkExpunger (summarize st kept)).
Proof.
  intros Hwf Hq Hskip Hd _.
  pose proof (_without_skippable_charges_filter st _ (record_charges_exist st Hwf))
    as Hkept.
  eexists. split; [exact Hkept|]. split.
  - apply list_elem_of_filter. split.
    + unfold analyzable. destruct Hq as (? & ? & ? & ? & ->).
      by rewrite Hskip, Hd.
    + apply (elem_of_record_charges st q Hwf). eauto.
  - unfold __init__. rewrite (Record_charges_well_formed st Hwf). simpl.
    by rewrite Hkept.
Qed.

End expunger_filtering.

Section expunger_reporting.
Import expunger.
Context {Meta : Type}.
Variable verdict : State → ChargeWithSummary Meta → ref → TimeEligibility.

Lemma diagnostics_of_functional s name e e' :
  diagnostics_of s name e → diagnostics_of s name e' → e = e'.
Proof.
  unfold diagnostics_of. destruct (bool_decide (s = ∅)); [congruence|].
  intros (m & Hm & ->) (m' & Hm' & ->). congruence.
Qed.

Lemma diagnostics_of_nil s name e :
  diagnostics_of s name e → (e = [] ↔ s = ∅).
Proof.
  unfold diagnostics_of. destruct (decide (s = ∅)) as [Hs|Hs].
  - rewrite bool_decide_eq_true_2 by done. by intros ->.
  - rewrite bool_decide_eq_false_2 by done. intros (m & _ & ->). by split.
Qed.

Lemma open_cases_diagnostics_nil st :
  open_cases_diagnostics st = [] ↔ open_cases st = [].
Proof.
  unfold open_cases_diagnostics. by destruct (open_cases st) as [|c l].
Qed.

Lemma closed_when_no_open_cases st c :
  open_cases st = [] → c ∈ record_cases st → closed c = true.
Proof.
  intros Hnone Hc. destruct (closed c) eqn:Hclosed; [done|].
  assert (Hin : c ∈ open_cases st) by (by apply list_elem_of_filter).
  rewrite Hnone in Hin. by apply elem_of_nil in Hin.
Qed.

(** X3.  On a well-formed record [run] appends nothing to the error log
    exactly when there is nothing to report: no open case, and every charge
    that is not skip-analysis has a disposition with a recognized status.
    Then it returns [true]. *)
Theorem nothing_appended_iff_nothing_to_report (self : Expunger Meta) (st : State) :
  well_formed st = true →
  ∃ b st' appended,
    run verdict self st = Ok (b, st')
    ∧ errors (record st') = errors (record st) ++ appended
    ∧ (appended = [] ↔ nothing_to_report st)
    ∧ (nothing_to_report st → b = true).
Proof.
  intros Hwf.
  destruct (filter_record_spec st Hwf) as (m & u & Hsets & Hm & Hu).
  destruct (run_spec verdict self st Hwf) as (m' & u' & e1 & e2 & st1 & H).
  destruct H as (Hsets' & He1 & He2 & _ & _ & _ & Herrors & Hrun).
  rewrite Hsets in Hsets'. injection Hsets' as <- <-.
  exists (bool_decide (length (open_cases st) = 0)),
    (TimeAnalyzer_evaluate verdict (charges_with_summary self) st1),
    (open_cases_diagnostics st ++ e1 ++ e2).
  split; [exact Hrun|]. split.
  { destruct (TimeAnalyzer_evaluate_untouched verdict (charges_with_summary self) st1)
      as (_ & -> & _). exact Herrors. }
  assert (Hiff : open_cases_diagnostics st ++ e1 ++ e2 = []
                 ↔ open_cases st = [] ∧ m = ∅ ∧ u = ∅).
  { rewrite <- open_cases_diagnostics_nil.
    rewrite <- (diagnostics_of_nil m _ e1 He1), <- (diagnostics_of_nil u _ e2 He2).
    split.
    - intros (? & (? & ?)%app_eq_nil)%app_eq_nil. done.
    - by intros (-> & -> & ->). }
  split.
  - rewrite Hiff. unfold nothing_to_report. split.
    + intros (Hnone & Hm0 & Hu0). split; [done|].
      intros q ch c Hq Hskip.
      destruct (disposition ch) as [d|] eqn:Hd.
      * exists d. split; [done|]. intros Hstatus.
        assert (Hin : case_number c +:+ ": " +:+ ruling d ∈ u).
        { apply Hu. exists q, ch, c. split; [done|].
          unfold unrecognized_identifier. rewrite Hd, Hskip. simpl.
          by rewrite bool_decide_eq_true_2. }
        rewrite Hu0 in Hin. by apply not_elem_of_empty in Hin.
      * assert (Hclosed : closed c = true).
        { apply (closed_when_no_open_cases st c Hnone).
          apply elem_of_record_cases. destruct Hq as (r & ? & ? & _). eauto. }
        assert (Hin : case_number c ∈ m).
        { apply Hm. exists q, ch, c. split; [done|]. split; [|done].
          unfold contributes_missing. rewrite Hskip, Hd, Hclosed. done. }
        rewrite Hm0 in Hin. by apply not_elem_of_empty in Hin.
    + intros (Hnone & Hall). split; [done|]. split.
      * apply elem_of_equiv_empty_L. intros n (q & ch & c & Hq & Hcontrib & _)%Hm.
        unfold contributes_missing in Hcontrib.
        apply andb_true_iff in Hcontrib as [[Hskip Hd]%andb_true_iff _].
        apply negb_true_iff in Hskip. apply bool_decide_eq_true in Hd.
        destruct (Hall q ch c Hq Hskip) as (d & Hd' & _). congruence.
      * apply elem_of_equiv_empty_L. intros i (q & ch & c & Hq & Hid)%Hu.
        unfold unrecognized_identifier in Hid.
        destruct (disposition ch) as [d|] eqn:Hd; [|done].
        destruct (skip_analysis ch) eqn:Hskip; simpl in Hid; [done|].
        destruct (decide (status d = UNRECOGNIZED)) as [Hst|Hst].
        -- destruct (Hall q ch c Hq Hskip) as (d' & Hd' & Hrec). congruence.
        -- by rewrite bool_decide_eq_false_2 in Hid.
  - intros [Hnone _]. apply bool_decide_eq_true. by rewrite Hnone.
Qed.

(** X4.  On a well-formed record the value that [run] returns and the
    entries that it appends are fixed by the record alone: they are the same
    for every expunger state and every time analysis. *)
Theorem diagnostics_independent_of_time_analysis (st : State) :
  well_formed st = true →
  ∃ b appended,
    ∀ (Meta' : Type)
      (verdict' : State → ChargeWithSummary Meta' → ref → TimeEligibility)
      (self : Expunger Meta'),
    ∃ st', run verdict' self st = Ok (b, st')
           ∧ errors (record st') = errors (record st) ++ appended.
Proof.
  intros Hwf.
  destruct (filter_record_spec st Hwf) as (m & u & Hsets & _).
  destruct (_build_disposition_errors_spec st _ m u Hsets)
    as (e1 & e2 & _ & He1 & He2).
  exists (bool_decide (length (open_cases st) = 0)),
    (open_cases_diagnostics st ++ e1 ++ e2).
  intros Meta' verdict' self.
  destruct (run_spec verdict' self st Hwf) as (m' & u' & e1' & e2' & st1 & H).
  destruct H as (Hsets' & He1' & He2' & _ & _ & _ & Herrors & Hrun).
  rewrite Hsets in Hsets'. injection Hsets' as <- <-.
  rewrite (diagnostics_of_functional _ _ _ _ He1 He1'),
    (diagnostics_of_functional _ _ _ _ He2 He2').
  eexists. split; [exact Hrun|].
  destruct (TimeAnalyzer_evaluate_untouched verdict' (charges_with_summary self) st1)
    as (_ & -> & _). exact Herrors.
Qed.

End expunger_reporting.

Section expunger_weak_references.
Import expunger.
Context {Meta : Type}.
Variable verdict : State → ChargeWithSummary Meta → ref → TimeEligibility.

Lemma filter_step_passes st sets q :
  passes_filter st q → ∃ sets', filter_step st sets q = Ok sets'.
Proof.
  intros (ch & Hch & [Hskip|[c Hc]]).
  - destruct sets as [m u]. unfold filter_step, get_charge.
    rewrite Hch. simpl. rewrite Hskip. simpl. eauto.
  - rewrite (filter_step_spec st sets q ch c Hch Hc). eauto.
Qed.

Lemma filter_step_dead_case st sets q ch :
  charge_objs st !! q = Some ch → skip_analysis ch = false →
  case_objs st !! case ch = None →
  filter_step st sets q = Raise AttributeError.
Proof.
  intros Hch Hskip Hdead. destruct sets as [m u].
  unfold filter_step, get_charge, deref_case.
  rewrite Hch. simpl. rewrite Hskip. simpl. by rewrite Hdead.
Qed.

Lemma filter_loop_dead_case st pre q post ch :
  Forall (passes_filter st) pre →
  charge_objs st !! q = Some ch → skip_analysis ch = false →
  case_objs st !! case ch = None →
  ∀ sets, filter_loop st sets (pre ++ q :: post) = Raise AttributeError.
Proof.
  intros Hpre Hch Hskip Hdead.
  induction Hpre as [|p pre Hp _ IH]; intros sets; simpl.
  - by rewrite (filter_step_dead_case st sets q ch).
  - destruct (filter_step_passes st sets p Hp) as (sets' & ->). simpl. apply IH.
Qed.

(** X5.  The weak reference of a charge to its case is followed only for
    charges that are not skip-analysis.  When the cases of the record can be
    read and the first charge that the loop cannot get past is not
    skip-analysis and refers to a case that is gone, [run] raises
    [AttributeError], whatever the disposition of that charge; a
    skip-analysis charge with such a reference is stepped over. *)
Theorem dead_case_reference_raises
    (self : Expunger Meta) (st : State) (cs : list Case)
    (pre post : list ref) (q : ref) (ch : Charge) :
  get_cases st (cases (record st)) = Ok cs →
  concat (map charges cs) = pre ++ q :: post →
  Forall (passes_filter st) pre →
  charge_objs st !! q = Some ch →
  case_objs st !! case ch = None →
  (skip_analysis ch = false → run verdict self st = Raise AttributeError)
  ∧ (skip_analysis ch = true → ∀ sets, filter_step st sets q = Ok sets).
Proof.
  intros Hcases Hcharges Hpre Hch Hdead. split.
  - intros Hskip. unfold run. rewrite Hcases. simpl.
    assert (Hraise : ∀ new,
      (Record_charges (extend_errors new st)
         ≫= fun all_charges =>
              _build_disposition_errors (extend_errors new st) all_charges
                ≫= fun disposition_errors =>
                     Ok (bool_decide
                           (length (filter (fun c => closed c = false) cs) = 0),
                         TimeAnalyzer_evaluate verdict (charges_with_summary self)
                           (extend_errors disposition_errors (extend_errors new st))))
      = Raise AttributeError).
    { intros new. rewrite Record_charges_extend_errors. unfold Record_charges.
      rewrite Hcases. simpl. rewrite _build_disposition_errors_extend_errors.
      unfold _build_disposition_errors, _filter_cases_with_errors.
      rewrite Hcharges.
      by rewrite (filter_loop_dead_case st pre q post ch Hpre Hch Hskip Hdead). }
    destruct (bool_decide (0 < length (filter (fun c => closed c = false) cs))).
    + apply Hraise.
    + unfold Record_charges. rewrite Hcases. simpl.
      unfold _build_disposition_errors, _filter_cases_with_errors.
      rewrite Hcharges.
      by rewrite (filter_loop_dead_case st pre q post ch Hpre Hch Hskip Hdead).
  - intros Hskip [m u]. unfold filter_step, get_charge.
    rewrite Hch. simpl. by rewrite Hskip.
Qed.

End expunger_weak_references.

Section expunger_further_scenarios.
Import expunger.

Lemma dead_case_reference_raises_witness :
  run indeterminate (mkExpunger []) orphan_record = Raise AttributeError.
Proof.
  destruct (dead_case_reference_raises indeterminate (mkExpunger []) orphan_record
              [mkCase "C5" true [12; 10; 11]] [12; 10] [] 11
              (mkCharge 7 false (Some (mkDisposition DISMISSED "Dismissed")) None))
    as [Hraise _]; [by vm_compute|by vm_compute| |by vm_compute|by vm_compute|].
  - repeat constructor.
    + exists (mkCharge 7 true None None). split; [by vm_compute|by left].
    + exists (mkCharge 0 false (Some (mkDisposition CONVICTED "Convicted")) None).
      split; [by vm_compute|right]. eexists. by vm_compute.
  - by apply Hraise.
Defined.

End expunger_further_scenarios.

Section expunger_second_run.
Import expunger.
Context {Meta : Type}.
Variable verdict : State → ChargeWithSummary Meta → ref → TimeEligibility.

Lemma same_facts_charge st st' q :
  same_facts st st' →
  clear_eligibility <$> (charge_objs st' !! q)
  = clear_eligibility <$> (charge_objs st !! q).
Proof. intros (_ & _ & Hf). by rewrite <- !lookup_fmap, Hf. Qed.

Lemma same_facts_get_cases st st' rs :
  same_facts st st' → get_cases st' rs = get_cases st rs.
Proof.
  intros (Hc & _). induction rs as [|r rs IH]; simpl; [done|].
  unfold get_case. by rewrite Hc, IH.
Qed.

Lemma same_facts_record_cases st st' :
  same_facts st st' → record_cases st' = record_cases st.
Proof. intros (Hc & Hr & _). unfold record_cases. by rewrite Hc, Hr. Qed.

Lemma forallb_pointwise {A : Type} (f g : A → bool) (l : list A) :
  (∀ x, f x = g x) → forallb f l = forallb g l.
Proof. intros Hfg. induction l as [|x l IH]; simpl; [done|]. by rewrite Hfg, IH. Qed.

Lemma same_facts_well_formed st st' :
  same_facts st st' → well_formed st' = well_formed st.
Proof.
  intros Hsame. pose proof Hsame as (Hc & Hr & _).
  unfold well_formed. rewrite Hr. apply forallb_pointwise. intros r.
  unfold case_well_formed. rewrite Hc.
  destruct (case_objs st !! r) as [c|]; [|done].
  apply forallb_pointwise. intros q. unfold charge_belongs_to.
  pose proof (same_facts_charge st st' q Hsame) as Hq.
  destruct (charge_objs st' !! q) as [ch'|], (charge_objs st !! q) as [ch|];
    simpl in Hq; try done.
  injection Hq as Hcase _ _. by rewrite Hcase.
Qed.

Lemma same_facts_filter_step st st' sets q :
  same_facts st st' → filter_step st' sets q = filter_step st sets q.
Proof.
  intros Hsame. pose proof Hsame as (Hc & _ & _).
  pose proof (same_facts_charge st st' q Hsame) as Hq.
  destruct sets as [m u]. unfold filter_step, get_charge, deref_case.
  rewrite Hc.
  destruct (charge_objs st' !! q) as [ch'|], (charge_objs st !! q) as [ch|];
    simpl in Hq; try done.
  injection Hq as Hcase Hskip Hd. simpl. by rewrite Hcase, Hskip, Hd.
Qed.

Lemma same_facts_filter_loop st st' qs sets :
  same_facts st st' → filter_loop st' sets qs = filter_loop st sets qs.
Proof.
  intros Hsame. revert sets. induction qs as [|q qs IH]; intros sets; simpl; [done|].
  rewrite (same_facts_filter_step st st' sets q Hsame).
  destruct (filter_step st sets q); simpl; [apply IH|done].
Qed.

(** X6.  A second [run] on the record that a first [run] left, with the
    same expunger, returns the same value and appends the same entries once
    more: the diagnostics of the first run are in the log twice. *)
Theorem second_run_repeats_diagnostics (self : Expunger Meta) (st : State) :
  well_formed st = true →
  ∃ b st1 st2 appended,
    run verdict self st = Ok (b, st1)
    ∧ run verdict self st1 = Ok (b, st2)
    ∧ errors (record st1) = errors (record st) ++ appended
    ∧ errors (record st2) = errors (record st) ++ appended ++ appended.
Proof.
  intros Hwf.
  destruct (run_spec verdict self st Hwf) as (m & u & e1 & e2 & st0 & H).
  destruct H as (Hsets & He1 & He2 & Hch0 & Hc0 & Hcases0 & Herrors0 & Hrun).
  set (st1 := TimeAnalyzer_evaluate verdict (charges_with_summary self) st0) in *.
  destruct (TimeAnalyzer_evaluate_untouched verdict (charges_with_summary self) st0)
    as (Hc1 & Hr1 & Hf1 & _). fold st1 in Hc1, Hr1, Hf1.
  assert (Hsame : same_facts st st1).
  { split_and!.
    - by rewrite Hc1.
    - by rewrite Hr1.
    - by rewrite Hf1, Hch0. }
  assert (Hwf1 : well_formed st1 = true)
    by (by rewrite (same_facts_well_formed st st1 Hsame)).
  destruct (run_spec verdict self st1 Hwf1) as (m' & u' & e1' & e2' & st0' & H).
  destruct H as (Hsets' & He1' & He2' & _ & _ & _ & Herrors0' & Hrun').
  assert (Hcases : record_cases st1 = record_cases st)
    by (by apply same_facts_record_cases).
  assert (Hopen : open_cases st1 = open_cases st)
    by (unfold open_cases; by rewrite Hcases).
  assert (Hcharges : record_charges st1 = record_charges st)
    by (unfold record_charges; by rewrite Hcases).
  unfold _filter_cases_with_errors in Hsets'.
  rewrite Hcharges, (same_facts_filter_loop st st1 _ _ Hsame) in Hsets'.
  unfold _filter_cases_with_errors in Hsets.
  rewrite Hsets in Hsets'. injection Hsets' as <- <-.
  rewrite <- (diagnostics_of_functional _ _ _ _ He1 He1') in *.
  rewrite <- (diagnostics_of_functional _ _ _ _ He2 He2') in *.
  exists (bool_decide (length (open_cases st) = 0)), st1,
    (TimeAnalyzer_evaluate verdict (charges_with_summary self) st0'),
    (open_cases_diagnostics st ++ e1 ++ e2).
  assert (Herrors1 : errors (record st1)
                     = errors (record st) ++ open_cases_diagnostics st ++ e1 ++ e2)
    by (by rewrite Hr1).
  split_and!.
  - exact Hrun.
  - rewrite Hrun'. by rewrite Hopen.
  - exact Herrors1.
  - destruct (TimeAnalyzer_evaluate_untouched verdict (charges_with_summary self) st0')
      as (_ & -> & _).
    rewrite Herrors0', Herrors1. unfold open_cases_diagnostics. rewrite Hopen.
    by rewrite <- !app_assoc.
Qed.

End expunger_second_run.

Section expunger_more_scenarios.
Import expunger.

Lemma without_skippable_charges_keeps_order_witness :
  _without_skippable_charges mixed_record [10; 13; 12; 14; 10] = Ok [10; 14; 10].
Proof.
  destruct (without_skippable_charges_keeps_order mixed_record [10; 13; 12; 14; 10])
    as (kept & Hkept & Hfilter & _).
  - refine (bool_decide_unpack _ _). by vm_compute.
  - rewrite Hkept, Hfilter. by vm_compute.
Defined.

Lemma unrecognized_charge_is_analyzable_witness :
  well_formed mixed_record = true
  ∧ ∃ kept, __init__ one_per_group mixed_record
            = Ok (mkExpunger (one_per_group mixed_record kept))
            ∧ 10 ∈ kept.
Proof.
  split; [by vm_compute|].
  destruct (unrecognized_charge_is_analyzable one_per_group mixed_record 10
              (mkCharge 0 false (Some (mkDisposition UNRECOGNIZED "Foo")) None)
              (mkCase "C3" true [10; 11]) (mkDisposition UNRECOGNIZED "Foo"))
    as (kept & _ & Hin & Hinit);
    [by vm_compute| |reflexivity|reflexivity|reflexivity|].
  - exists 0. split_and!; [| by vm_compute | | by vm_compute].
    + apply list_elem_of_In. simpl. by left.
    + apply list_elem_of_In. simpl. by left.
  - exists kept. split; [exact Hinit|exact Hin].
Defined.

Lemma nothing_appended_iff_nothing_to_report_witness :
  well_formed settled_record = true ∧ nothing_to_report settled_record.
Proof.
  split; [by vm_compute|].
  destruct (nothing_appended_iff_nothing_to_report indeterminate (mkExpunger [])
              settled_record)
    as (b & st' & appended & Hrun & Herrors & Hiff & _); [by vm_compute|].
  apply Hiff.
  assert (Hlog : match run indeterminate (mkExpunger (Meta := unit) []) settled_record with
                 | Ok (_, s) => errors (record s)
                 | Raise _ => []
                 end = ["loaded"]) by (by vm_compute).
  rewrite Hrun, Herrors in Hlog.
  change (["loaded"] ++ appended = ["loaded"] ++ []) in Hlog.
  by apply app_inv_head in Hlog.
Defined.

Lemma diagnostics_independent_of_time_analysis_witness :
  well_formed mixed_record = true
  ∧ ∃ b appended st1 st2,
      run indeterminate mixed_expunger mixed_record = Ok (b, st1)
      ∧ run indeterminate (mkExpunger []) mixed_record = Ok (b, st2)
      ∧ errors (record st1) = errors (record mixed_record) ++ appended
      ∧ errors (record st2) = errors (record mixed_record) ++ appended.
Proof.
  split; [by vm_compute|].
  destruct (diagnostics_independent_of_time_analysis mixed_record)
    as (b & appended & Hall); [by vm_compute|].
  destruct (Hall unit indeterminate mixed_expunger) as (st1 & Hrun1 & Herr1).
  destruct (Hall unit indeterminate (mkExpunger [])) as (st2 & Hrun2 & Herr2).
  exists b, appended, st1, st2.
  split; [exact Hrun1|]. split; [exact Hrun2|]. split; [exact Herr1|exact Herr2].
Defined.

Lemma second_run_repeats_diagnostics_witness :
  well_formed mixed_record = true
  ∧ ∃ b st1 st2 appended,
      run indeterminate mixed_expunger mixed_record = Ok (b, st1)
      ∧ run indeterminate mixed_expunger st1 = Ok (b, st2)
      ∧ errors (record st2) = ["loaded with warnings"] ++ appended ++ appended.
Proof.
  split; [by vm_compute|].
  destruct (second_run_repeats_diagnostics indeterminate mixed_expunger mixed_record)
    as (b & st1 & st2 & appended & Hrun1 & Hrun2 & _ & Herr2); [by vm_compute|].
  exists b, st1, st2, appended.
  split; [exact Hrun1|]. split; [exact Hrun2|exact Herr2].
Defined.

End expunger_more_scenarios.

(** * Further properties of the user endpoints *)

Section users_post_paths.
Import users.

(** X7.  Whatever the request, [post] makes no call at all, or one call of
    [generate_password_hash], or that call followed by one call of
    [user.create].  The hash is computed only for a password whose length is
    at least 8; [user.create] is called only after the hash was returned, and
    the user it is given carries that hash; the database changes only by a
    [user.create] that succeeds. *)
Theorem post_call_discipline {S : Services} (req : Request) (w : World S) :
  (post req w).2 = w
  ∨ (∃ data pw n,
        get_json req = Some data ∧ data !! "password" = Some pw
        ∧ len pw = Ok n ∧ (8 ≤ n)%nat
        ∧ calls (post req w).2 = calls w ++ [Call_generate_password_hash pw]
        ∧ database (post req w).2 = database w)
  ∨ (∃ data pw n h u,
        get_json req = Some data ∧ data !! "password" = Some pw
        ∧ len pw = Ok n ∧ (8 ≤ n)%nat
        ∧ generate_password_hash S pw = Ok h
        ∧ password_hash u = h
        ∧ calls (post req w).2 = calls w ++ calls_of_creation pw u
        ∧ (database (post req w).2 = database w
           ∨ ∃ row, user_create S (database w) u
                    = Some (row, database (post req w).2))).
Proof.
  unfold post, admin_auth_required, post_body, bind, check_data_fields, getitem,
    lift, call_generate_password_hash, call_user_create, ret, error, raise.
  destruct (admin_gate S req) as [rejection|]; [by left|].
  destruct (get_json req) as [data|] eqn:Hjson; [|by left].
  cbv beta iota.
  destruct (forallb _ _); cbv beta iota; [|by left].
  destruct (data !! "password") as [pw|] eqn:Hpw; cbv beta iota; [|by left].
  destruct (len pw) as [n|e] eqn:Hlen; cbv beta iota; [|by left].
  destruct (bool_decide (n < 8)) eqn:Hn; cbv beta iota; [by left|].
  apply bool_decide_eq_false in Hn.
  assert (Hlong : (8 ≤ n)%nat) by lia.
  destruct (generate_password_hash S pw) as [h|e] eqn:Hhash; cbv beta iota.
  2:{ right; left. exists data, pw, n. simpl. by split_and!. }
  destruct (data !! "email") as [e|]; cbv beta iota;
    [|right; left; exists data, pw, n; simpl; by split_and!].
  destruct (data !! "name") as [nm|]; cbv beta iota;
    [|right; left; exists data, pw, n; simpl; by split_and!].
  destruct (data !! "group_name") as [g|]; cbv beta iota;
    [|right; left; exists data, pw, n; simpl; by split_and!].
  destruct (data !! "admin") as [a|]; cbv beta iota;
    [|right; left; exists data, pw, n; simpl; by split_and!].
  simpl database. simpl calls.
  right; right. exists data, pw, n, h, (mkNewUser e nm g h a).
  destruct (user_create S (database w) (mkNewUser e nm g h a))
    as [[row db']|] eqn:Hcreate; cbv beta iota.
  - destruct (row !! "email"); cbv beta iota;
      [|simpl; rewrite <- app_assoc; split_and!; eauto].
    destruct (row !! "admin"); cbv beta iota;
      [|simpl; rewrite <- app_assoc; split_and!; eauto].
    destruct (row !! "date_created"); cbv beta iota;
      simpl; rewrite <- app_assoc; split_and!; eauto.
  - simpl. rewrite <- app_assoc. split_and!; eauto.
Qed.

End users_post_paths.

Section users_post_creation.
Import users.
Context {S : Services}.
Variables (req : Request) (w : World S) (data : gmap string Json).
Variables (e nm g pw a : Json) (n : nat) (h : string).
Hypothesis Hgate : admin_gate S req = None.
Hypothesis Hjson : get_json req = Some data.
Hypothesis Hemail : data !! "email" = Some e.
Hypothesis Hname : data !! "name" = Some nm.
Hypothesis Hgroup : data !! "group_name" = Some g.
Hypothesis Hpassword : data !! "password" = Some pw.
Hypothesis Hadmin : data !! "admin" = Some a.
Hypothesis Hlen : len pw = Ok n.
Hypothesis Hlong : (8 ≤ n)%nat.
Hypothesis Hhash : generate_password_hash S pw = Ok h.

Lemma five_fields_present :
  ∀ field, field ∈ required_fields → is_Some (data !! field).
Proof using Hemail Hname Hgroup Hpassword Hadmin.
  intros field Hin. apply list_elem_of_In in Hin. simpl in Hin.
  destruct Hin as [<-|[<-|[<-|[<-|[<-|[]]]]]]; eauto.
Qed.

(** A request that passes every check reaches [user.create]. *)
Lemma post_reaches_create :
  let u := mkNewUser e nm g h a in
  post req w
  = match user_create S (database w) u with
    | Some (row, db') =>
        (match row !! "email", row !! "admin", row !! "date_created" with
         | Some r_email, Some r_admin, Some r_timestamp =>
             Responded 201
               (<["email" := r_email]>
                  (<["admin" := r_admin]> (<["timestamp" := r_timestamp]> ∅)))
         | _, _, _ => Uncaught KeyError
         end,
         mkWorld db' (calls w ++ calls_of_creation pw u))
    | None =>
        (Aborted 422 "User with that email address already exists",
         mkWorld (database w) (calls w ++ calls_of_creation pw u))
    end.
Proof using All.
  unfold post, admin_auth_required, post_body, bind, check_data_fields, getitem,
    lift, call_generate_password_hash, call_user_create, ret, error, raise.
  rewrite Hgate, Hjson. cbv beta iota.
  change ["email"; "name"; "group_name"; "password"; "admin"] with required_fields.
  rewrite (required_fields_present data five_fields_present). cbv beta iota.
  rewrite Hpassword, Hlen. cbv beta iota.
  rewrite bool_decide_eq_false_2 by lia. cbv beta iota.
  unfold lift, ret, raise. rewrite Hhash. cbv beta iota.
  rewrite Hemail, Hname, Hgroup, Hadmin. cbv beta iota.
  simpl database. simpl calls. rewrite <- app_assoc.
  change ([Call_generate_password_hash pw] ++ [Call_user_create (mkNewUser e nm g h a)])
    with (calls_of_creation pw (mkNewUser e nm g h a)).
  destruct (user_create S (database w) (mkNewUser e nm g h a)) as [[row db']|];
    cbv beta iota; [|done].
  destruct (row !! "email"); cbv beta iota; [|done].
  destruct (row !! "admin"); cbv beta iota; [|done].
  by destruct (row !! "date_created").
Qed.

(** X8.  A request that passes the gate, has the five fields, a password of
    length at least 8 that [generate_password_hash] accepts, and for which
    [user.create] returns a row with [email], [admin] and [date_created], is
    answered 201 with a body of exactly three fields: "email" and "admin"
    with the values of the row, "timestamp" with the row's [date_created].
    The world is the database that [user.create] returned. *)
Theorem post_creates_user
    (row : gmap string Json) (db' : Database S) (r_email r_admin r_timestamp : Json) :
  user_create S (database w) (mkNewUser e nm g h a) = Some (row, db') →
  row !! "email" = Some r_email →
  row !! "admin" = Some r_admin →
  row !! "date_created" = Some r_timestamp →
  let body : gmap string Json :=
    <["email" := r_email]>
      (<["admin" := r_admin]> (<["timestamp" := r_timestamp]> ∅)) in
  post req w
  = (Responded 201 body,
     mkWorld db' (calls w ++ calls_of_creation pw (mkNewUser e nm g h a)))
  ∧ dom body = {[ "email"; "admin"; "timestamp" ]}.
Proof using All.
  intros Hcreate Hre Hra Hrt body. split.
  - rewrite post_reaches_create. cbv zeta. by rewrite Hcreate, Hre, Hra, Hrt.
  - unfold body. rewrite !dom_insert_L, dom_empty_L. set_solver.
Qed.

(** X9.  When [user.create] raises [UniqueViolation] the request is answered
    422 with the message about the email address; the hash has been computed
    and [user.create] has been called, and the database is the one before
    the request. *)
Theorem post_duplicate_email :
  user_create S (database w) (mkNewUser e nm g h a) = None →
  post req w
  = (Aborted 422 "User with that email address already exists",
     mkWorld (database w) (calls w ++ calls_of_creation pw (mkNewUser e nm g h a))).
Proof using All.
  intros Hcreate. rewrite post_reaches_create. cbv zeta. by rewrite Hcreate.
Qed.

(** X10.  When the row that [user.create] returns lacks [email], [admin] or
    [date_created], the view ends with an uncaught [KeyError] (status 500),
    and the world is the database that [user.create] returned: the user has
    been created although the request fails. *)
Theorem post_incomplete_row_after_creation
    (row : gmap string Json) (db' : Database S) :
  user_create S (database w) (mkNewUser e nm g h a) = Some (row, db') →
  row !! "email" = None ∨ row !! "admin" = None ∨ row !! "date_created" = None →
  post req w
  = (Uncaught KeyError,
     mkWorld db' (calls w ++ calls_of_creation pw (mkNewUser e nm g h a)))
  ∧ status_of (post req w).1 = 500.
Proof using All.
  intros Hcreate Hmissing.
  assert (Hpost : post req w
    = (Uncaught KeyError,
       mkWorld db' (calls w ++ calls_of_creation pw (mkNewUser e nm g h a)))).
  { rewrite post_reaches_create. cbv zeta. rewrite Hcreate.
    destruct Hmissing as [-> | [-> | ->]].
    - done.
    - by destruct (row !! "email").
    - by destruct (row !! "email"), (row !! "admin"). }
  split; [done|]. by rewrite Hpost.
Qed.

End users_post_creation.

Section users_post_rejections.
Import users.
Context {S : Services}.

(** X11.  The length check is made with [len] on whatever JSON value the
    'password' field holds.  For a request that passes the gate and has the
    five fields: a password that is [null], a boolean or a number ends the
    view with an uncaught [TypeError]; any password with a length below 8,
    a JSON array or object as well as a string, is answered 422.  In both
    cases nothing is called. *)
Theorem post_password_of_any_json_type
    (req : Request) (w : World S) (data : gmap string Json) (pw : Json) :
  admin_gate S req = None →
  get_json req = Some data →
  (∀ field, field ∈ required_fields → is_Some (data !! field)) →
  data !! "password" = Some pw →
  (pw = JNull ∨ (∃ b, pw = JBool b) ∨ (∃ z, pw = JNumber z) →
   post req w = (Uncaught TypeError, w))
  ∧ (∀ n, len pw = Ok n → (n < 8)%nat →
       post req w = (Aborted 422 "New password is less than 8 characters long!", w))
  ∧ (∀ l, pw = JArray l → (length l < 8)%nat → status_of (post req w).1 = 422).
Proof.
  intros Hgate Hjson Hfields Hpassword.
  assert (Hpost : post req w
    = match len pw with
      | Ok n =>
          if bool_decide (n < 8)%nat
          then (Aborted 422 "New password is less than 8 characters long!", w)
          else post req w
      | Raise e => (Uncaught e, w)
      end).
  { destruct (len pw) as [n|e] eqn:Hlen.
    - destruct (bool_decide (n < 8)%nat) eqn:Hn; [|done].
      unfold post, admin_auth_required, post_body, bind, check_data_fields, getitem,
        lift, ret, error, raise.
      rewrite Hgate, Hjson. cbv beta iota.
      change ["email"; "name"; "group_name"; "password"; "admin"] with required_fields.
      rewrite (required_fields_present data Hfields). cbv beta iota.
      rewrite Hpassword, Hlen. cbv beta iota. by rewrite Hn.
    - unfold post, admin_auth_required, post_body, bind, check_data_fields, getitem,
        lift, ret, error, raise.
      rewrite Hgate, Hjson. cbv beta iota.
      change ["email"; "name"; "group_name"; "password"; "admin"] with required_fields.
      rewrite (required_fields_present data Hfields). cbv beta iota.
      by rewrite Hpassword, Hlen. }
  split_and!.
  - intros [-> | [[b ->] | [z ->]]]; by rewrite Hpost.
  - intros n Hlen Hshort. rewrite Hpost, Hlen. by rewrite bool_decide_eq_true_2.
  - intros l -> Hshort. rewrite Hpost. simpl. by rewrite bool_decide_eq_true_2.
Qed.

(** X12.  A request that passes the gate and has no JSON body, or whose body
    lacks one of the five required fields, is answered 400 whatever its
    password is, and nothing is called. *)
Theorem post_answers_400_without_required_data (req : Request) (w : World S) :
  admin_gate S req = None →
  (get_json req = None →
   post req w = (Aborted 400 "No json data in request body", w))
  ∧ (∀ data field,
       get_json req = Some data →
       field ∈ required_fields → data !! field = None →
       post req w = (Aborted 400 (missing_fields_message S required_fields), w)).
Proof.
  intros Hgate. split.
  - intros Hjson.
    unfold post, admin_auth_required, post_body, bind, error.
    by rewrite Hgate, Hjson.
  - intros data field Hjson Hin Hnone.
    unfold post, admin_auth_required, post_body, bind, check_data_fields, ret, error.
    rewrite Hgate, Hjson. cbv beta iota.
    change ["email"; "name"; "group_name"; "password"; "admin"] with required_fields.
    assert (Hfields : forallb (fun field => bool_decide (is_Some (data !! field)))
                        required_fields = false).
    { apply not_true_is_false. rewrite forallb_forall. intros Hall.
      apply list_elem_of_In, Hall, bool_decide_eq_true in Hin.
      rewrite Hnone in Hin. by destruct Hin. }
    by rewrite Hfields.
Qed.

End users_post_rejections.

Section users_get.
Import users.
Context {S : Services}.
Variable fetchall : Database S → list (gmap string Json).

Lemma get_entry_spec (row : gmap string Json) (w : World S) :
  get_entry row w
  = (match public_entry row with
     | Some entry => inl entry
     | None => inr (Uncaught KeyError)
     end, w).
Proof.
  unfold get_entry, public_entry, bind, getitem, ret, raise.
  destruct (row !! "user_id"); simpl; [|done].
  destruct (row !! "email"); simpl; [|done].
  destruct (row !! "name"); simpl; [|done].
  destruct (row !! "group_name"); simpl; [|done].
  destruct (row !! "admin"); simpl; [|done].
  by destruct (row !! "date_created").
Qed.

Lemma get_loop_spec (rows : list (gmap string Json)) (users : list Json) (w : World S) :
  get_loop rows users w
  = (match mapM public_entry rows with
     | Some entries => inl (users ++ entries)
     | None => inr (Uncaught KeyError)
     end, w).
Proof.
  revert users. induction rows as [|row rows IH]; intros users; simpl.
  - unfold ret. by rewrite app_nil_r.
  - unfold bind. rewrite get_entry_spec.
    destruct (public_entry row) as [entry|]; simpl; [|done].
    rewrite IH. destruct (mapM public_entry rows) as [entries|]; simpl; [|done].
    by rewrite <- app_assoc.
Qed.

Lemma get_spec (req : Request) (w : World S) :
  get fetchall req w
  = match admin_gate S req with
    | Some rejection => (rejection, w)
    | None =>
        (match mapM public_entry (fetchall (database w)) with
         | Some users => Responded 201 {[ "users" := JArray users ]}
         | None => Uncaught KeyError
         end, w)
    end.
Proof.
  unfold get, admin_auth_required. destruct (admin_gate S req); [done|].
  unfold get_body, bind. rewrite get_loop_spec.
  by destruct (mapM public_entry (fetchall (database w))).
Qed.

Lemma public_entry_is_Some (row : gmap string Json) :
  (∀ k, k ∈ columns_read → is_Some (row !! k)) → is_Some (public_entry row).
Proof.
  intros Hall. unfold public_entry.
  destruct (Hall "user_id") as [? ->]; [set_solver|].
  destruct (Hall "email") as [? ->]; [set_solver|].
  destruct (Hall "name") as [? ->]; [set_solver|].
  destruct (Hall "group_name") as [? ->]; [set_solver|].
  destruct (Hall "admin") as [? ->]; [set_solver|].
  destruct (Hall "date_created") as [? ->]; [set_solver|].
  simpl. eauto.
Qed.

Lemma public_entry_None (row : gmap string Json) (k : string) :
  k ∈ columns_read → row !! k = None → public_entry row = None.
Proof.
  intros Hin Hnone. apply list_elem_of_In in Hin. simpl in Hin.
  unfold public_entry.
  destruct Hin as [<-|[<-|[<-|[<-|[<-|[<-|[]]]]]]]; rewrite Hnone;
    repeat (match goal with |- context [?m !! ?key] => destruct (m !! key) end; simpl);
    done.
Qed.

(** X13.  [get] never changes the world.  When the gate lets the request
    through and every row that [user.fetchall] returns has the six columns
    that are read, the answer has status 201 and its "users" list has one
    entry for each row, in the order of the rows; when a row lacks one of
    the columns the view ends with an uncaught [KeyError]. *)
Theorem get_lists_one_entry_per_row (req : Request) (w : World S) :
  (get fetchall req w).2 = w
  ∧ (admin_gate S req = None →
     Forall (fun row => ∀ k, k ∈ columns_read → is_Some (row !! k))
       (fetchall (database w)) →
     ∃ users,
       (get fetchall req w).1 = Responded 201 {[ "users" := JArray users ]}
       ∧ Forall2 (fun row entry => public_entry row = Some entry)
           (fetchall (database w)) users)
  ∧ (admin_gate S req = None →
     Exists (fun row => ∃ k, k ∈ columns_read ∧ row !! k = None)
       (fetchall (database w)) →
     (get fetchall req w).1 = Uncaught KeyError).
Proof.
  rewrite get_spec. split_and!.
  - by destruct (admin_gate S req).
  - intros -> Hall. simpl.
    assert (Hsome : is_Some (mapM public_entry (fetchall (database w)))).
    { apply mapM_is_Some. eapply Forall_impl; [exact Hall|].
      intros row Hrow. by apply public_entry_is_Some. }
    destruct Hsome as [users Husers]. rewrite Husers.
    exists users. split; [done|]. by apply mapM_Some.
  - intros -> Hmissing. simpl.
    assert (Hnone : mapM public_entry (fetchall (database w)) = None).
    { apply mapM_None. eapply Exists_impl; [exact Hmissing|].
      intros row (k & Hk & Hnone). by apply (public_entry_None row k). }
    by rewrite Hnone.
Qed.

End users_get.

Section users_get_columns.
Import users.
Context {S : Services}.

Lemma public_entry_agree (row row' : gmap string Json) :
  (∀ k, k ∈ columns_read → row !! k = row' !! k) →
  public_entry row = public_entry row'.
Proof.
  intros Hagree. unfold public_entry.
  rewrite (Hagree "user_id"), (Hagree "email"), (Hagree "name"),
    (Hagree "group_name"), (Hagree "admin"), (Hagree "date_created");
    [done|set_solver..].
Qed.

(** X14.  The answer of [get] depends on the rows only through the six
    columns that are read: two tables whose rows agree on them get the same
    answer, so a column such as the stored password hash never shows. *)
Theorem get_shows_only_columns_read
    (fetchall fetchall' : Database S → list (gmap string Json))
    (req : Request) (w : World S) :
  Forall2 (fun row row' => ∀ k, k ∈ columns_read → row !! k = row' !! k)
    (fetchall (database w)) (fetchall' (database w)) →
  get fetchall req w = get fetchall' req w.
Proof.
  intros Hagree. rewrite !get_spec.
  destruct (admin_gate S req); [done|].
  assert (Hsame : mapM public_entry (fetchall (database w))
                  = mapM public_entry (fetchall' (database w))).
  { induction Hagree as [|row row' rows rows' Hrow _ IH]; [done|].
    simpl. by rewrite (public_entry_agree row row' Hrow), IH. }
  by rewrite Hsame.
Qed.

End users_get_columns.

Section users_scenarios.
Import users.

(** The hypotheses shared by the scenarios that reach [user.create]. *)
Lemma long_enough_fields :
  data_with_password (JString "long enough") !! "email" = Some (JString "a@example.org")
  ∧ data_with_password (JString "long enough") !! "name" = Some (JString "A")
  ∧ data_with_password (JString "long enough") !! "group_name" = Some (JString "G")
  ∧ data_with_password (JString "long enough") !! "password"
    = Some (JString "long enough")
  ∧ data_with_password (JString "long enough") !! "admin" = Some (JBool false).
Proof. split_and!; by vm_compute. Qed.

Lemma post_creates_user_witness :
  ∃ body,
    post (S := demo_services) (request_with_password (JString "long enough")) empty_world
    = (Responded 201 body,
       mkWorld (S := demo_services) [created_user]
         (calls_of_creation (JString "long enough") created_user))
    ∧ dom body = {[ "email"; "admin"; "timestamp" ]}.
Proof.
  destruct long_enough_fields as (Hemail & Hname & Hgroup & Hpassword & Hadmin).
  assert (Hgate : admin_gate demo_services
                    (request_with_password (JString "long enough")) = None)
    by (by vm_compute).
  assert (Hlen : len (JString "long enough") = Ok 11) by reflexivity.
  assert (Hlong : (8 ≤ 11)%nat) by lia.
  assert (Hhash : generate_password_hash demo_services (JString "long enough")
                  = Ok "hashed:long enough") by reflexivity.
  assert (Hcreate : user_create demo_services (database empty_world) created_user
                    = Some (<["email" := JString "a@example.org"]>
                              (<["admin" := JBool false]>
                                 (<["date_created" := JNumber 0]> ∅)),
                            [created_user])) by reflexivity.
  destruct (post_creates_user (S := demo_services) _ empty_world _ _ _ _ _ _ _ _
              Hgate eq_refl Hemail Hname Hgroup Hpassword Hadmin Hlen Hlong Hhash
              _ _ (JString "a@example.org") (JBool false) (JNumber 0) Hcreate)
    as (Hpost & Hdom); [by vm_compute..|].
  eexists. split; [exact Hpost|exact Hdom].
Defined.

Lemma post_duplicate_email_witness :
  post (S := duplicate_services) (request_with_password (JString "long enough"))
    (mkWorld (S := duplicate_services) [] [])
  = (Aborted 422 "User with that email address already exists",
     mkWorld (S := duplicate_services) []
       (calls_of_creation (JString "long enough") created_user)).
Proof.
  destruct long_enough_fields as (Hemail & Hname & Hgroup & Hpassword & Hadmin).
  assert (Hgate : admin_gate duplicate_services
                    (request_with_password (JString "long enough")) = None)
    by (by vm_compute).
  assert (Hlen : len (JString "long enough") = Ok 11) by reflexivity.
  assert (Hlong : (8 ≤ 11)%nat) by lia.
  assert (Hhash : generate_password_hash duplicate_services (JString "long enough")
                  = Ok "hashed:long enough") by reflexivity.
  exact (post_duplicate_email (S := duplicate_services) _
           (mkWorld (S := duplicate_services) [] []) _ _ _ _ _ _ _ _
           Hgate eq_refl Hemail Hname Hgroup Hpassword Hadmin Hlen Hlong Hhash
           eq_refl).
Defined.

Lemma post_incomplete_row_after_creation_witness :
  post (S := incomplete_row_services)
    (request_with_password (JString "long enough"))
    (mkWorld (S := incomplete_row_services) [] [])
  = (Uncaught KeyError,
     mkWorld (S := incomplete_row_services) [created_user]
       (calls_of_creation (JString "long enough") created_user)).
Proof.
  destruct long_enough_fields as (Hemail & Hname & Hgroup & Hpassword & Hadmin).
  assert (Hgate : admin_gate incomplete_row_services
                    (request_with_password (JString "long enough")) = None)
    by (by vm_compute).
  assert (Hlen : len (JString "long enough") = Ok 11) by reflexivity.
  assert (Hlong : (8 ≤ 11)%nat) by lia.
  assert (Hhash : generate_password_hash incomplete_row_services
                    (JString "long enough")
                  = Ok "hashed:long enough") by reflexivity.
  assert (Hcreate : user_create incomplete_row_services [] created_user
                    = Some (<["email" := JString "a@example.org"]>
                              (<["admin" := JBool false]> ∅),
                            [created_user])) by reflexivity.
  assert (Hmissing :
    (<["email" := JString "a@example.org"]>
       (<["admin" := JBool false]> (∅ : gmap string Json))) !! "date_created" = None)
    by (by vm_compute).
  destruct (post_incomplete_row_after_creation (S := incomplete_row_services) _
              (mkWorld (S := incomplete_row_services) [] []) _ _ _ _ _ _ _ _
              Hgate eq_refl Hemail Hname Hgroup Hpassword Hadmin Hlen Hlong Hhash
              _ _ Hcreate (or_intror (or_intror Hmissing)))
    as [Hpost _].
  exact Hpost.
Defined.

Lemma post_password_of_any_json_type_witness :
  post (S := demo_services) (request_with_password (JNumber 12345678)) empty_world
  = (Uncaught TypeError, empty_world)
  ∧ post (S := demo_services) (request_with_password (JString "ééééé")) empty_world
    = (Aborted 422 "New password is less than 8 characters long!", empty_world).
Proof.
  assert (Hfields : ∀ pw field, field ∈ required_fields →
                      is_Some (data_with_password pw !! field)).
  { intros pw field Hin. apply list_elem_of_In in Hin. simpl in Hin.
    destruct Hin as [<-|[<-|[<-|[<-|[<-|[]]]]]];
      refine (bool_decide_unpack _ _); by vm_compute. }
  split.
  - assert (Hgate : admin_gate demo_services
                      (request_with_password (JNumber 12345678)) = None)
      by (by vm_compute).
    assert (Hpassword : data_with_password (JNumber 12345678) !! "password"
                        = Some (JNumber 12345678)) by (by vm_compute).
    destruct (post_password_of_any_json_type (S := demo_services)
                (request_with_password (JNumber 12345678)) empty_world
                (data_with_password (JNumber 12345678)) (JNumber 12345678)
                Hgate eq_refl (Hfields _) Hpassword) as (Htype & _).
    apply Htype. right; right. by exists 12345678%Z.
  - assert (Hgate : admin_gate demo_services
                      (request_with_password (JString "ééééé")) = None)
      by (by vm_compute).
    assert (Hpassword : data_with_password (JString "ééééé") !! "password"
                        = Some (JString "ééééé")) by (by vm_compute).
    destruct (post_password_of_any_json_type (S := demo_services)
                (request_with_password (JString "ééééé")) empty_world
                (data_with_password (JString "ééééé")) (JString "ééééé")
                Hgate eq_refl (Hfields _) Hpassword) as (_ & Hshort & _).
    apply (Hshort 5); [reflexivity|lia].
Defined.

Lemma post_answers_400_without_required_data_witness :
  post (S := demo_services) only_password empty_world
  = (Aborted 400 (missing_fields_message demo_services required_fields), empty_world).
Proof.
  destruct (post_answers_400_without_required_data (S := demo_services)
              only_password empty_world) as [_ Hmissing]; [by vm_compute|].
  apply (Hmissing {[ "password" := JString "short" ]} "email"); [done| |by vm_compute].
  apply list_elem_of_In. simpl. by left.
Defined.

Lemma get_lists_one_entry_per_row_witness :
  (get (S := demo_services) demo_fetchall all_fields_short_password one_user_world).2
  = one_user_world
  ∧ ∃ entry,
      (get (S := demo_services) demo_fetchall all_fields_short_password
         one_user_world).1
      = Responded 201 {[ "users" := JArray [entry] ]}.
Proof.
  destruct (get_lists_one_entry_per_row (S := demo_services) demo_fetchall
              all_fields_short_password one_user_world)
    as (Hworld & Hrows & _).
  split; [exact Hworld|].
  destruct Hrows as (users & Hanswer & Hentries); [by vm_compute| |].
  - repeat constructor. intros k Hin. apply list_elem_of_In in Hin. simpl in Hin.
    destruct Hin as [<-|[<-|[<-|[<-|[<-|[<-|[]]]]]]];
      refine (bool_decide_unpack _ _); by vm_compute.
  - apply Forall2_length in Hentries.
    destruct users as [|entry [|? ?]]; try discriminate Hentries.
    exists entry. exact Hanswer.
Defined.

Lemma get_shows_only_columns_read_witness :
  get (S := demo_services) demo_fetchall all_fields_short_password one_user_world
  = get (S := demo_services) demo_fetchall_without_hash
      all_fields_short_password one_user_world.
Proof.
  apply (get_shows_only_columns_read (S := demo_services)).
  repeat constructor. intros k Hin. apply list_elem_of_In in Hin. simpl in Hin.
  destruct Hin as [<-|[<-|[<-|[<-|[<-|[<-|[]]]]]]]; by vm_compute.
Defined.

End users_scenarios.
